(** * MeshDetector: the mesh synchronisation loop of xrblocks

    A shallow embedding of [MeshDetector] (wrapper around the WebXR mesh
    detection API) and the properties of its reconciliation loop.

    JavaScript numbers are IEEE-754 binary64 values and are modelled by
    Rocq's primitive floats.  The two JavaScript [Map]s are finite maps;
    objects created with [new] live in a store that only grows, and a
    reference to an object is its index in that store. *)

From Stdlib Require Import ZArith List.
From Stdlib Require Import Floats.PrimFloat Floats.SpecFloat Floats.FloatOps
  Floats.FloatAxioms.
From stdpp Require Import gmap strings list.

(** ** three.js values read and written by the detector *)
Module THREE.

Record Vector3 := mkVector3 { x : float; y : float; z : float }.

Record Quaternion :=
  mkQuaternion { qx : float; qy : float; qz : float; qw : float }.

(** [Matrix4.elements], column-major. *)
Definition Matrix4 := list float.

(** Reading an array slot; a missing slot is [undefined], which every
    arithmetic use turns into NaN. *)
Definition elem (e : list float) (i : nat) : float := nth i e nan.

(** [new Matrix4().fromArray(array)]: copies sixteen slots. *)
Definition fromArray (array : list float) : Matrix4 :=
  map (elem array) (seq 0 16).

(** [v.setFromMatrixPosition(m)] *)
Definition setFromMatrixPosition (m : Matrix4) : Vector3 :=
  mkVector3 (elem m 12) (elem m 13) (elem m 14).

(** [v.applyMatrix4(m)] *)
Definition applyMatrix4 (v : Vector3) (m : Matrix4) : Vector3 :=
  let w := (1 / (elem m 3 * x v + elem m 7 * y v + elem m 11 * z v
                 + elem m 15))%float in
  mkVector3
    ((elem m 0 * x v + elem m 4 * y v + elem m 8 * z v + elem m 12) * w)%float
    ((elem m 1 * x v + elem m 5 * y v + elem m 9 * z v + elem m 13) * w)%float
    ((elem m 2 * x v + elem m 6 * y v + elem m 10 * z v + elem m 14) * w)%float.

(** [a.sub(b)] *)
Definition sub (a b : Vector3) : Vector3 :=
  mkVector3 (x a - x b)%float (y a - y b)%float (z a - z b)%float.

Definition multiplyScalar (v : Vector3) (s : float) : Vector3 :=
  mkVector3 (x v * s)%float (y v * s)%float (z v * s)%float.

Definition divideScalar (v : Vector3) (s : float) : Vector3 :=
  multiplyScalar v (1 / s)%float.

(** [v.length()] *)
Definition norm (v : Vector3) : float :=
  sqrt (x v * x v + y v * y v + z v * z v)%float.

(** JavaScript truthiness of a number: false for 0, -0 and NaN. *)
Definition truthy (n : float) : bool := negb (is_nan n || is_zero n).

(** [v.normalize()], that is [divideScalar(length() || 1)]. *)
Definition normalize (v : Vector3) : Vector3 :=
  divideScalar v (if truthy (norm v) then norm v else 1%float).

Inductive Side := FrontSide | BackSide | DoubleSide.

(** The parameters of a [MeshBasicMaterial] the detector sets. *)
Record MeshBasicMaterial := mkMaterial {
  color : Z;
  wireframe : bool;
  side : Side;
  visible : bool
}.

(** [Object3D.remove(object)]: the first occurrence in [children] is
    spliced out. *)
Fixpoint remove (object : nat) (children : list nat) : list nat :=
  match children with
  | [] => []
  | c :: rest => if decide (c = object) then rest else c :: remove object rest
  end.

(** [Object3D.add(object)]: the object leaves its parent and is pushed. *)
Definition add (object : nat) (children : list nat) : list nat :=
  remove object children ++ [object].

End THREE.

(** ** WebXR objects supplied by the browser *)
Module WebXR.

(** Handles are compared by identity. *)
Abbreviation XRMesh := N (only parsing).
Abbreviation XRSpace := N (only parsing).
Abbreviation XRReferenceSpace := N (only parsing).

Record DOMPointReadOnly :=
  mkPoint { px : float; py : float; pz : float; pw : float }.

Record XRRigidTransform := mkTransform {
  position : DOMPointReadOnly;
  orientation : DOMPointReadOnly;
  matrix : list float
}.

Record XRPose := mkPose { transform : XRRigidTransform }.

Record XRView := mkView { view_transform : XRRigidTransform }.

Record XRViewerPose := mkViewerPose { views : list XRView }.

Record XRFrame := mkFrame {
  detectedMeshes : option (list XRMesh);
  getPose : XRSpace -> XRReferenceSpace -> option XRPose;
  getViewerPose : XRReferenceSpace -> option XRViewerPose
}.

End WebXR.

Import WebXR.

(** What the page reads from outside the detector during one call: the
    clock, the renderer's reference space and the attributes of the
    [XRMesh] objects. *)
Record Env := mkEnv {
  performance_now : float;
  getReferenceSpace : option XRReferenceSpace;
  meshSpace : XRMesh -> XRSpace;
  semanticLabel : XRMesh -> option string;
  vertices : XRMesh -> list float
}.

Record Physics := mkPhysics { RAPIER : N; blendedWorld : N }.

Record MeshDetectionOptions := mkOptions { showDebugVisualizations : bool }.

(** Modelled from the spec: the class [DetectedMesh] (./DetectedMesh) is
    not among the sources.  A SyncedMesh holds a geometry derived from the
    SensorMesh's vertex data, a material and a world transform; its
    methods release its resources, register its physics representation
    and refresh the geometry from the latest vertex data.  Each method is
    recorded in a field of its own. *)
Record DetectedMesh := mkDetectedMesh {
  material : THREE.MeshBasicMaterial;
  position : THREE.Vector3;
  quaternion : THREE.Quaternion;
  geometry : list float;
  disposed : bool;
  rapier : option Physics
}.

(** Modelled from the spec: [new DetectedMesh(xrMesh, material)], the
    constructor of the absent class; the geometry comes from the handle's
    vertex data and the transform starts as three.js leaves it. *)
Definition newDetectedMesh (env : Env) (xrMesh : XRMesh)
    (material : THREE.MeshBasicMaterial) : DetectedMesh :=
  {| material := material;
     position := THREE.mkVector3 0 0 0;
     quaternion := THREE.mkQuaternion 0 0 0 1;
     geometry := vertices env xrMesh;
     disposed := false;
     rapier := None |}.

(** Modelled from the spec: [mesh.dispose()] of the absent class releases
    the resources of the mesh; the call is recorded. *)
Definition dispose (mesh : DetectedMesh) : DetectedMesh :=
  {| material := material mesh; position := position mesh;
     quaternion := quaternion mesh; geometry := geometry mesh;
     disposed := true; rapier := rapier mesh |}.

(** Modelled from the spec: [mesh.initRapierPhysics(RAPIER, blendedWorld)]
    of the absent class registers the physics representation of the mesh;
    the registrar is recorded. *)
Definition initRapierPhysics (physics : Physics) (mesh : DetectedMesh)
    : DetectedMesh :=
  {| material := material mesh; position := position mesh;
     quaternion := quaternion mesh; geometry := geometry mesh;
     disposed := disposed mesh; rapier := Some physics |}.

(** Modelled from the spec: [mesh.updateVertices(xrMesh)] of the absent
    class updates the geometry from the latest vertex data. *)
Definition updateVertices (env : Env) (xrMesh : XRMesh) (mesh : DetectedMesh)
    : DetectedMesh :=
  {| material := material mesh; position := position mesh;
     quaternion := quaternion mesh; geometry := vertices env xrMesh;
     disposed := disposed mesh; rapier := rapier mesh |}.

(** [mesh.position.copy(p); mesh.quaternion.copy(q)] *)
Definition copyPose (pose : XRPose) (mesh : DetectedMesh) : DetectedMesh :=
  let p := WebXR.position (transform pose) in
  let q := WebXR.orientation (transform pose) in
  {| material := material mesh;
     position := THREE.mkVector3 (px p) (py p) (pz p);
     quaternion := THREE.mkQuaternion (px q) (py q) (pz q) (pw q);
     geometry := geometry mesh;
     disposed := disposed mesh; rapier := rapier mesh |}.

(** ** The detector *)

Definition SEMANTIC_LABELS : list string := ["floor"; "ceiling"; "wall"]%string.
Definition SEMANTIC_COLORS : list Z := [0x00ff00; 0xffff00; 0x0000ff]%Z.

Definition kMaxViewDistance : float := 3%float.
Definition kFOVCosThreshold : float := 0.25%float.
Definition MAX_MESHES_PER_FRAME : Z := 100000.
Definition MESH_UPDATE_INTERVAL_MS : float := 1000%float.

(** The literal [0.001] of the source, as the binary64 value it denotes. *)
Definition kEpsilon : float := 0x1.0624dd2f1a9fcp-10%float.

(** [new THREE.MeshBasicMaterial({visible: false})] *)
Definition defaultMaterial : THREE.MeshBasicMaterial :=
  THREE.mkMaterial 0xffffff false THREE.FrontSide false.

(** [new THREE.MeshBasicMaterial({color, wireframe: true, side: DoubleSide})] *)
Definition debugMaterial (color : Z) : THREE.MeshBasicMaterial :=
  THREE.mkMaterial color true THREE.DoubleSide true.

(** The fields of a [MeshDetector] that its methods read or write, the
    [children] of the script in the scene graph, and the store of the
    [DetectedMesh] objects it has created. *)
Record MeshDetector := mkMeshDetector {
  debugMaterials : gmap string THREE.MeshBasicMaterial;
  fallbackDebugMaterial : option THREE.MeshBasicMaterial;
  xrMeshToThreeMesh : gmap N nat;
  threeMeshToXrMesh : gmap nat N;
  physics : option Physics;
  lastMeshUpdateTime : float;
  children : list nat;
  store : list DetectedMesh
}.

(** The field initialisers of the class. *)
Definition initial : MeshDetector :=
  {| debugMaterials := ∅;
     fallbackDebugMaterial := None;
     xrMeshToThreeMesh := ∅;
     threeMeshToXrMesh := ∅;
     physics := None;
     lastMeshUpdateTime := 0%float;
     children := [];
     store := [] |}.

Definition init (options : MeshDetectionOptions) (this : MeshDetector)
    : MeshDetector :=
  if showDebugVisualizations options then
    {| debugMaterials :=
         foldl (fun m '(label, color) => <[label := debugMaterial color]> m)
               (debugMaterials this)
               (zip SEMANTIC_LABELS SEMANTIC_COLORS);
       fallbackDebugMaterial := Some (debugMaterial 0x000000);
       xrMeshToThreeMesh := xrMeshToThreeMesh this;
       threeMeshToXrMesh := threeMeshToXrMesh this;
       physics := physics this;
       lastMeshUpdateTime := lastMeshUpdateTime this;
       children := children this;
       store := store this |}
  else this.

Definition initPhysics (physics : Physics) (this : MeshDetector)
    : MeshDetector :=
  {| debugMaterials := debugMaterials this;
     fallbackDebugMaterial := fallbackDebugMaterial this;
     xrMeshToThreeMesh := xrMeshToThreeMesh this;
     threeMeshToXrMesh := threeMeshToXrMesh this;
     physics := Some physics;
     lastMeshUpdateTime := lastMeshUpdateTime this;
     children := children this;
     store :=
       foldl (fun st '(_, mesh) => alter (initRapierPhysics physics) mesh st)
             (store this)
             (map_to_list (xrMeshToThreeMesh this)) |}.

(** Replacing the object store. *)
Definition withStore (st : list DetectedMesh) (this : MeshDetector)
    : MeshDetector :=
  {| debugMaterials := debugMaterials this;
     fallbackDebugMaterial := fallbackDebugMaterial this;
     xrMeshToThreeMesh := xrMeshToThreeMesh this;
     threeMeshToXrMesh := threeMeshToXrMesh this;
     physics := physics this;
     lastMeshUpdateTime := lastMeshUpdateTime this;
     children := children this;
     store := st |}.

(** [this.lastMeshUpdateTime = now] *)
Definition withLastMeshUpdateTime (now : float) (this : MeshDetector)
    : MeshDetector :=
  {| debugMaterials := debugMaterials this;
     fallbackDebugMaterial := fallbackDebugMaterial this;
     xrMeshToThreeMesh := xrMeshToThreeMesh this;
     threeMeshToXrMesh := threeMeshToXrMesh this;
     physics := physics this;
     lastMeshUpdateTime := now;
     children := children this;
     store := store this |}.

(** The four statements that take a mesh down, shared by the removal pass
    and by culling:
    [xrMeshToThreeMesh.delete(xrMesh); threeMeshToXrMesh.delete(threeMesh);
     threeMesh.dispose(); this.remove(threeMesh)]. *)
Definition removeMesh (xrMesh : XRMesh) (threeMesh : nat)
    (this : MeshDetector) : MeshDetector :=
  {| debugMaterials := debugMaterials this;
     fallbackDebugMaterial := fallbackDebugMaterial this;
     xrMeshToThreeMesh := delete xrMesh (xrMeshToThreeMesh this);
     threeMeshToXrMesh := delete threeMesh (threeMeshToXrMesh this);
     physics := physics this;
     lastMeshUpdateTime := lastMeshUpdateTime this;
     children := THREE.remove threeMesh (children this);
     store := alter dispose threeMesh (store this) |}.

(** [updateMeshPose(frame, xrMesh, mesh)]; [referenceSpace] is the value of
    [this.renderer.xr.getReferenceSpace()!]. *)
Definition updateMeshPose (env : Env) (frame : XRFrame)
    (referenceSpace : XRReferenceSpace) (xrMesh : XRMesh) (mesh : nat)
    (this : MeshDetector) : MeshDetector :=
  match getPose frame (meshSpace env xrMesh) referenceSpace with
  | Some pose => withStore (alter (copyPose pose) mesh (store this)) this
  | None => this
  end.

(** The material chosen by [createMesh]:
    [(semanticLabel && debugMaterials.get(semanticLabel))
     || fallbackDebugMaterial || defaultMaterial]. *)
Definition chooseMaterial (semanticLabel : option string)
    (this : MeshDetector) : THREE.MeshBasicMaterial :=
  let byLabel :=
    match semanticLabel with
    | Some label =>
        if decide (label = ""%string) then None
        else debugMaterials this !! label
    | None => None
    end in
  match byLabel with
  | Some m => m
  | None =>
      match fallbackDebugMaterial this with
      | Some m => m
      | None => defaultMaterial
      end
  end.

(** [createMesh(frame, xrMesh)]: the new object is appended to the store
    and its reference returned. *)
Definition createMesh (env : Env) (frame : XRFrame)
    (referenceSpace : XRReferenceSpace) (xrMesh : XRMesh)
    (this : MeshDetector) : nat * MeshDetector :=
  let material := chooseMaterial (semanticLabel env xrMesh) this in
  let mesh := length (store this) in
  let this :=
    withStore (store this ++ [newDetectedMesh env xrMesh material]) this in
  (mesh, updateMeshPose env frame referenceSpace xrMesh mesh this).

(** [getCameraInfo(frame, referenceSpace)] *)
Definition getCameraInfo (frame : XRFrame) (referenceSpace : XRReferenceSpace)
    : THREE.Vector3 * THREE.Vector3 :=
  match getViewerPose frame referenceSpace with
  | Some viewerPose =>
      match views viewerPose with
      | view :: _ =>
          let viewMatrix := THREE.fromArray (matrix (view_transform view)) in
          let cameraPosition := THREE.setFromMatrixPosition viewMatrix in
          let forward :=
            THREE.applyMatrix4 (THREE.mkVector3 0 0 (-1)) viewMatrix in
          (cameraPosition,
           THREE.normalize (THREE.sub forward cameraPosition))
      | [] => (THREE.mkVector3 0 0 0, THREE.mkVector3 0 0 (-1))
      end
  | None => (THREE.mkVector3 0 0 0, THREE.mkVector3 0 0 (-1))
  end.

(** The distance and the cosine computed by [shouldShowMeshInView]. *)
Definition viewDistance (meshPosition cameraPosition : THREE.Vector3) : float :=
  let dx := (THREE.x meshPosition - THREE.x cameraPosition)%float in
  let dy := (THREE.y meshPosition - THREE.y cameraPosition)%float in
  let dz := (THREE.z meshPosition - THREE.z cameraPosition)%float in
  sqrt (dx * dx + dy * dy + dz * dz)%float.

Definition viewCosine (meshPosition cameraPosition cameraForward : THREE.Vector3)
    : float :=
  let dx := (THREE.x meshPosition - THREE.x cameraPosition)%float in
  let dy := (THREE.y meshPosition - THREE.y cameraPosition)%float in
  let dz := (THREE.z meshPosition - THREE.z cameraPosition)%float in
  let distance := sqrt (dx * dx + dy * dy + dz * dz)%float in
  let invDistance := (1 / distance)%float in
  let dirX := (dx * invDistance)%float in
  let dirY := (dy * invDistance)%float in
  let dirZ := (dz * invDistance)%float in
  (dirX * THREE.x cameraForward + dirY * THREE.y cameraForward
   + dirZ * THREE.z cameraForward)%float.

(** [shouldShowMeshInView(mesh, cameraPosition, cameraForward, frame,
    referenceSpace)] *)
Definition shouldShowMeshInView (env : Env) (mesh : XRMesh)
    (cameraPosition cameraForward : THREE.Vector3) (frame : XRFrame)
    (referenceSpace : XRReferenceSpace) : bool :=
  match getPose frame (meshSpace env mesh) referenceSpace with
  | None => true
  | Some meshPose =>
      let meshMatrix := THREE.fromArray (matrix (transform meshPose)) in
      let meshPosition := THREE.setFromMatrixPosition meshMatrix in
      let distance := viewDistance meshPosition cameraPosition in
      if (kMaxViewDistance <? distance)%float then false
      else if (kEpsilon <? distance)%float then
        if (viewCosine meshPosition cameraPosition cameraForward
              <? kFOVCosThreshold)%float
        then false else true
      else true
  end.

(** The first loop of [updateMeshes]: every mapped handle the feed no
    longer reports is taken down. *)
Definition deleteOldMeshes (meshes : list XRMesh) (this : MeshDetector)
    : MeshDetector :=
  foldl (fun this '(xrMesh, threeMesh) =>
           if bool_decide (xrMesh ∈ meshes) then this
           else removeMesh xrMesh threeMesh this)
        this
        (map_to_list (xrMeshToThreeMesh this)).

(** The new-mesh branch of the second loop. *)
Definition addNewMesh (env : Env) (frame : XRFrame)
    (referenceSpace : XRReferenceSpace) (xrMesh : XRMesh)
    (this : MeshDetector) : MeshDetector :=
  let '(threeMesh, this) := createMesh env frame referenceSpace xrMesh this in
  let store :=
    match physics this with
    | Some physics => alter (initRapierPhysics physics) threeMesh (store this)
    | None => store this
    end in
  {| debugMaterials := debugMaterials this;
     fallbackDebugMaterial := fallbackDebugMaterial this;
     xrMeshToThreeMesh := <[xrMesh := threeMesh]> (xrMeshToThreeMesh this);
     threeMeshToXrMesh := <[threeMesh := xrMesh]> (threeMeshToXrMesh this);
     physics := physics this;
     lastMeshUpdateTime := lastMeshUpdateTime this;
     children := THREE.add threeMesh (children this);
     store := store |}.

(** The existing-mesh branch of the second loop. *)
Definition updateExistingMesh (env : Env) (frame : XRFrame)
    (referenceSpace : XRReferenceSpace) (xrMesh : XRMesh) (threeMesh : nat)
    (this : MeshDetector) : MeshDetector :=
  updateMeshPose env frame referenceSpace xrMesh threeMesh
    (withStore (alter (updateVertices env xrMesh) threeMesh (store this)) this).

(** One iteration of the second loop, after the [processedCount] test. *)
Definition processMesh (env : Env) (frame : XRFrame)
    (referenceSpace : XRReferenceSpace)
    (cameraPosition cameraForward : THREE.Vector3) (xrMesh : XRMesh)
    (processedCount : Z) (this : MeshDetector) : Z * MeshDetector :=
  if negb (shouldShowMeshInView env xrMesh cameraPosition cameraForward
             frame referenceSpace)
  then
    match xrMeshToThreeMesh this !! xrMesh with
    | Some threeMesh => (processedCount, removeMesh xrMesh threeMesh this)
    | None => (processedCount, this)
    end
  else
    let processedCount := (processedCount + 1)%Z in
    match xrMeshToThreeMesh this !! xrMesh with
    | None =>
        (processedCount, addNewMesh env frame referenceSpace xrMesh this)
    | Some threeMesh =>
        (processedCount,
         updateExistingMesh env frame referenceSpace xrMesh threeMesh this)
    end.

(** The second loop of [updateMeshes], with its counter. *)
Fixpoint processMeshes (env : Env) (frame : XRFrame)
    (referenceSpace : XRReferenceSpace)
    (cameraPosition cameraForward : THREE.Vector3) (meshes : list XRMesh)
    (processedCount : Z) (this : MeshDetector) : Z * MeshDetector :=
  match meshes with
  | [] => (processedCount, this)
  | xrMesh :: rest =>
      if (processedCount >=? MAX_MESHES_PER_FRAME)%Z
      then (processedCount, this)
      else
        let '(processedCount, this) :=
          processMesh env frame referenceSpace cameraPosition cameraForward
            xrMesh processedCount this in
        processMeshes env frame referenceSpace cameraPosition cameraForward
          rest processedCount this
  end.

(** [updateMeshes(_timestamp, frame)]; the clock reading is
    [performance_now env]. *)
Definition updateMeshes (env : Env) (frame : option XRFrame)
    (this : MeshDetector) : MeshDetector :=
  match frame with
  | None => this
  | Some frame =>
      match detectedMeshes frame with
      | None => this
      | Some meshes =>
          let now := performance_now env in
          let timeSinceLastUpdate := (now - lastMeshUpdateTime this)%float in
          if (timeSinceLastUpdate <? MESH_UPDATE_INTERVAL_MS)%float then this
          else
            let this := withLastMeshUpdateTime now this in
            match getReferenceSpace env with
            | None => this
            | Some referenceSpace =>
                let '(cameraPosition, cameraForward) :=
                  getCameraInfo frame referenceSpace in
                let this := deleteOldMeshes meshes this in
                snd (processMeshes env frame referenceSpace cameraPosition
                       cameraForward meshes 0 this)
            end
      end
  end.

(** ** States the detector can be in *)

(** Every state a detector reaches from its construction through calls of
    its three methods, with whatever the browser supplies at each call. *)
Inductive reachable : MeshDetector -> Prop :=
| reachable_initial : reachable initial
| reachable_init options this :
    reachable this -> reachable (init options this)
| reachable_initPhysics physics this :
    reachable this -> reachable (initPhysics physics this)
| reachable_updateMeshes env frame this :
    reachable this -> reachable (updateMeshes env frame this).

(** ** Scenario data: a viewer at the origin looking down -Z *)

Definition translation (tx ty tz : float) : list float :=
  [1; 0; 0; 0;  0; 1; 0; 0;  0; 0; 1; 0;  tx; ty; tz; 1]%float.

Definition transformAt (tx ty tz : float) : XRRigidTransform :=
  mkTransform (mkPoint tx ty tz 1) (mkPoint 0 0 0 1) (translation tx ty tz).

Definition poseAt (tx ty tz : float) : XRPose := mkPose (transformAt tx ty tz).

(** A frame reporting [meshes], whose mesh spaces are posed by [poses] and
    whose single view sits at the origin with the identity orientation. *)
Definition frameOf (meshes : list XRMesh) (poses : XRSpace -> option XRPose)
    : XRFrame :=
  mkFrame (Some meshes) (fun space _ => poses space)
          (fun _ => Some (mkViewerPose [mkView (transformAt 0 0 0)])).

(** A browser whose clock reads [now]; every mesh is its own space, is
    labelled [label] and has the vertex buffer [verts]. *)
Definition envAt (now : float) (label : option string) (verts : list float)
    : Env :=
  mkEnv now (Some 0%N) (fun mesh => mesh) (fun _ => label) (fun _ => verts).

(** ** Invariants *)

(** The two maps are inverse to each other, every mapped object has been
    allocated, the objects attached to the scene are exactly the mapped
    ones, and an allocated object has been disposed of exactly when it is
    no longer mapped. *)
Record consistent (this : MeshDetector) : Prop := mkConsistent {
  forward_reverse : forall xrMesh threeMesh,
    xrMeshToThreeMesh this !! xrMesh = Some threeMesh ->
    threeMeshToXrMesh this !! threeMesh = Some xrMesh;
  reverse_forward : forall threeMesh xrMesh,
    threeMeshToXrMesh this !! threeMesh = Some xrMesh ->
    xrMeshToThreeMesh this !! xrMesh = Some threeMesh;
  reverse_allocated : forall threeMesh xrMesh,
    threeMeshToXrMesh this !! threeMesh = Some xrMesh ->
    threeMesh < length (store this);
  attached_mapped : forall threeMesh,
    threeMesh ∈ children this <-> is_Some (threeMeshToXrMesh this !! threeMesh);
  children_NoDup : NoDup (children this);
  disposed_unmapped : forall threeMesh mesh,
    store this !! threeMesh = Some mesh ->
    (disposed mesh = true <-> threeMeshToXrMesh this !! threeMesh = None)
}.

(** Only the labels and colours of the two tables are ever registered. *)
Definition materialsKnown (this : MeshDetector) : Prop :=
  (forall label m,
     debugMaterials this !! label = Some m ->
     label ∈ SEMANTIC_LABELS /\
     exists color, color ∈ SEMANTIC_COLORS /\ m = debugMaterial color) /\
  (forall m,
     fallbackDebugMaterial this = Some m -> m = debugMaterial 0x000000).

(** The fallback ordering in the words of the specification: the first
    defined candidate, else the last resort. *)
Fixpoint firstDefined {A : Type} (candidates : list (option A)) (lastResort : A)
    : A :=
  match candidates with
  | [] => lastResort
  | Some a :: _ => a
  | None :: rest => firstDefined rest lastResort
  end.

(** The label-specific debug material of a semantic label, if any. *)
Definition labelMaterial (label : option string) (this : MeshDetector)
    : option THREE.MeshBasicMaterial :=
  match label with
  | Some l => debugMaterials this !! l
  | None => None
  end.

(** The throttle test of [updateMeshes]. *)
Definition throttled (env : Env) (this : MeshDetector) : bool :=
  (performance_now env - lastMeshUpdateTime this <? MESH_UPDATE_INTERVAL_MS)%float.

(** The visibility of a reported mesh during one call, as the second loop
    computes it. *)
Definition shown (env : Env) (frame : XRFrame)
    (referenceSpace : XRReferenceSpace) (xrMesh : XRMesh) : bool :=
  shouldShowMeshInView env xrMesh
    (fst (getCameraInfo frame referenceSpace))
    (snd (getCameraInfo frame referenceSpace)) frame referenceSpace.

(** How many meshes of a prefix of the feed pass the visibility test: the
    value of [processedCount] when the loop has run through [before]
    without stopping. *)
Definition shownCount (env : Env) (frame : XRFrame)
    (referenceSpace : XRReferenceSpace)
    (cameraPosition cameraForward : THREE.Vector3) (before : list XRMesh) : Z :=
  Z.of_nat
    (length
       (filter (fun xrMesh =>
                  shouldShowMeshInView env xrMesh cameraPosition cameraForward
                    frame referenceSpace = true)
               before)).

(** The handles [from], [from + 1], ..., [count] of them. *)
Fixpoint countUp (count : nat) (from : N) : list XRMesh :=
  match count with
  | O => []
  | S count' => from :: countUp count' (N.succ from)
  end.

(** ** Relations between the states before and after a call *)

(** The store only grows, and an entry of the forward map that points to
    an object of the old store was already there. *)
Definition extends (s s' : MeshDetector) : Prop :=
  length (store s) <= length (store s') /\
  forall x m, xrMeshToThreeMesh s' !! x = Some m -> m < length (store s) ->
              xrMeshToThreeMesh s !! x = Some m.

(** The settings and the clock field, which the two loops never write. *)
Definition sameSettings (s s' : MeshDetector) : Prop :=
  debugMaterials s' = debugMaterials s /\
  fallbackDebugMaterial s' = fallbackDebugMaterial s /\
  physics s' = physics s /\
  lastMeshUpdateTime s' = lastMeshUpdateTime s.

(** The handle [x] stays mapped to [m], whose object keeps the transform
    of [o]; once [refreshed], its geometry is the current vertex data. *)
Definition kept (env : Env) (x : XRMesh) (m : nat) (o : DetectedMesh)
    (refreshed : bool) (s : MeshDetector) : Prop :=
  consistent s /\
  xrMeshToThreeMesh s !! x = Some m /\
  exists o', store s !! m = Some o' /\
             position o' = position o /\
             quaternion o' = quaternion o /\
             (refreshed = true -> geometry o' = vertices env x).

(** Every object a call allocates while a registrar is attached carries
    the registration. *)
Definition newRegistered (registrar : Physics) (s s' : MeshDetector) : Prop :=
  physics s' = Some registrar /\
  forall m, length (store s) <= m -> m < length (store s') ->
            exists o, store s' !! m = Some o /\ rapier o = Some registrar.

(** Membership in the two constant tables. *)
Ltac elem_of_here :=
  unfold SEMANTIC_LABELS, SEMANTIC_COLORS; rewrite !elem_of_cons; auto 6.

Ltac elem_of_inv H :=
  unfold SEMANTIC_LABELS, SEMANTIC_COLORS in H;
  repeat (apply elem_of_cons in H as [H|H]; [try done|]);
  try (by apply elem_of_nil in H).

(** ** Continuations *)

(** Every state a detector reaches from the state [from] through further
    calls of its three methods. *)
Inductive reachableFrom (from : MeshDetector) : MeshDetector -> Prop :=
| reachableFrom_here : reachableFrom from from
| reachableFrom_init options this :
    reachableFrom from this -> reachableFrom from (init options this)
| reachableFrom_initPhysics physics this :
    reachableFrom from this -> reachableFrom from (initPhysics physics this)
| reachableFrom_updateMeshes env frame this :
    reachableFrom from this -> reachableFrom from (updateMeshes env frame this).

(** The object [mesh] carries the transform of [pose] and the current
    vertex data of [xrMesh]. *)
Definition posedAs (env : Env) (xrMesh : XRMesh) (pose : XRPose)
    (mesh : DetectedMesh) : Prop :=
  position mesh
  = THREE.mkVector3 (px (WebXR.position (transform pose)))
      (py (WebXR.position (transform pose)))
      (pz (WebXR.position (transform pose))) /\
  quaternion mesh
  = THREE.mkQuaternion (px (WebXR.orientation (transform pose)))
      (py (WebXR.orientation (transform pose)))
      (pz (WebXR.orientation (transform pose)))
      (pw (WebXR.orientation (transform pose))) /\
  geometry mesh = vertices env xrMesh.

(** The handle [x] is mapped and its object is posed as [pose]. *)
Definition tracked (env : Env) (x : XRMesh) (pose : XRPose)
    (s : MeshDetector) : Prop :=
  consistent s /\
  exists m o, xrMeshToThreeMesh s !! x = Some m /\
              store s !! m = Some o /\
              posedAs env x pose o.

(** The forward map holds exactly the meshes of [meshes] that pass the
    visibility test. *)
Definition reconciled (env : Env) (frame : XRFrame)
    (referenceSpace : XRReferenceSpace) (meshes : list XRMesh)
    (this : MeshDetector) : Prop :=
  forall xrMesh,
    is_Some (xrMeshToThreeMesh this !! xrMesh) <->
    xrMesh ∈ meshes /\ shown env frame referenceSpace xrMesh = true.

(** ** Sample runs *)

(** The detector after one call at clock 1000 with the single mesh 7,
    which has no pose, in the feed. *)
Definition afterFirstTick : MeshDetector :=
  updateMeshes (envAt 1000 (Some "floor"%string) [1; 2; 3]%float)
    (Some (frameOf [7%N] (fun _ => None))) initial.

(** The detector after one call at clock 1000 with the single mesh 7,
    posed at (0,0,-1), in the feed. *)
Definition afterPosedTick : MeshDetector :=
  updateMeshes (envAt 1000 None [1; 2; 3]%float)
    (Some (frameOf [7%N] (fun _ => Some (poseAt 0 0 (-1))))) initial.

(** The object that call creates. *)
Definition posedMesh : DetectedMesh :=
  mkDetectedMesh defaultMaterial (THREE.mkVector3 0 0 (-1))
    (THREE.mkQuaternion 0 0 0 1) [1; 2; 3]%float false None.

(** A feed of [MAX_MESHES_PER_FRAME] meshes 0, 1, ... followed by the
    mesh 100000. *)
Definition crowdedFeed : list XRMesh :=
  countUp (Z.to_nat MAX_MESHES_PER_FRAME) 0 ++ [100000%N].

(** The detector after one call at clock 1000 with the single mesh
    100000, which has no pose, in the feed. *)
Definition afterLoneTick : MeshDetector :=
  updateMeshes (envAt 1000 None [])
    (Some (frameOf [100000%N] (fun _ => None))) initial.

(** Poses for the crowded feed: mesh 100000 is five units ahead, the
    others have no pose. *)
Definition farPoses (space : XRSpace) : option XRPose :=
  if (space =? 100000)%N then Some (poseAt 0 0 (-5)) else None.

(** * Proofs *)

(** ** Induction principles for the two loops *)

Lemma removeMesh_forward_ne x m s x' :
  x' <> x ->
  xrMeshToThreeMesh (removeMesh x m s) !! x' = xrMeshToThreeMesh s !! x'.
Proof. intros Hne. simpl. by rewrite lookup_delete_ne. Qed.

Lemma deleteOldMeshes_ind (P : MeshDetector -> Prop) meshes this :
  P this ->
  (forall s x m,
     P s -> xrMeshToThreeMesh s !! x = Some m ->
     xrMeshToThreeMesh this !! x = Some m -> x ∉ meshes ->
     P (removeMesh x m s)) ->
  P (deleteOldMeshes meshes this).
Proof.
  intros HP Hstep. unfold deleteOldMeshes.
  assert (Hl : forall x m, (x, m) ∈ map_to_list (xrMeshToThreeMesh this) ->
            xrMeshToThreeMesh this !! x = Some m /\
            xrMeshToThreeMesh this !! x = Some m).
  { intros x m Hin. by apply elem_of_map_to_list in Hin. }
  pose proof (NoDup_fst_map_to_list (xrMeshToThreeMesh this)) as Hnd.
  revert Hl Hnd HP.
  generalize (map_to_list (xrMeshToThreeMesh this)) as l.
  generalize this at 1 3 4 as s.
  intros s l. revert s.
  induction l as [|[x m] l IH]; intros s Hl Hnd HP; simpl; [done|].
  rewrite fmap_cons in Hnd. apply NoDup_cons in Hnd as [Hx Hnd].
  destruct (Hl x m) as [Hs Hthis]; [left|].
  apply IH; [|done|].
  - intros x' m' Hin. destruct (Hl x' m') as [Hs' Hthis']; [by right|].
    split; [|done]. case_bool_decide; [done|].
    rewrite removeMesh_forward_ne; [done|].
    intros ->. apply Hx. apply list_elem_of_fmap. by exists (x, m').
  - case_bool_decide; [done|]. by apply Hstep.
Qed.

Lemma processMesh_cases (P : MeshDetector -> Prop) env frame rs cp cf x c s :
  (shouldShowMeshInView env x cp cf frame rs = false ->
   forall m, xrMeshToThreeMesh s !! x = Some m -> P (removeMesh x m s)) ->
  (shouldShowMeshInView env x cp cf frame rs = false ->
   xrMeshToThreeMesh s !! x = None -> P s) ->
  (shouldShowMeshInView env x cp cf frame rs = true ->
   xrMeshToThreeMesh s !! x = None -> P (addNewMesh env frame rs x s)) ->
  (shouldShowMeshInView env x cp cf frame rs = true ->
   forall m, xrMeshToThreeMesh s !! x = Some m ->
             P (updateExistingMesh env frame rs x m s)) ->
  P (snd (processMesh env frame rs cp cf x c s)).
Proof.
  intros H1 H2 H3 H4. unfold processMesh.
  destruct (shouldShowMeshInView env x cp cf frame rs) eqn:Hshow; simpl;
    destruct (xrMeshToThreeMesh s !! x) as [m|] eqn:Hx; simpl; eauto.
Qed.

Lemma processMeshes_ind (P : MeshDetector -> Prop) env frame rs cp cf
    meshes c this :
  P this ->
  (forall s x c', P s -> x ∈ meshes ->
                  P (snd (processMesh env frame rs cp cf x c' s))) ->
  P (snd (processMeshes env frame rs cp cf meshes c this)).
Proof.
  revert c this. induction meshes as [|x rest IH]; intros c this HP Hstep;
    simpl; [done|].
  destruct (c >=? MAX_MESHES_PER_FRAME)%Z; [done|].
  destruct (processMesh env frame rs cp cf x c this) as [c' s'] eqn:Hpm.
  apply IH.
  - change s' with (snd (c', s')). rewrite <- Hpm. apply Hstep; [done|left].
  - intros s x' c'' Hs Hin. apply Hstep; [done|by right].
Qed.

(** A property kept by each of the four mutations is kept by a whole call. *)
Section Preservation.
Variable P : MeshDetector -> Prop.
Hypothesis P_time : forall now s, P s -> P (withLastMeshUpdateTime now s).
Hypothesis P_remove : forall x m s,
  P s -> xrMeshToThreeMesh s !! x = Some m -> P (removeMesh x m s).
Hypothesis P_add : forall env frame rs x s,
  P s -> xrMeshToThreeMesh s !! x = None -> P (addNewMesh env frame rs x s).
Hypothesis P_update : forall env frame rs x m s,
  P s -> xrMeshToThreeMesh s !! x = Some m ->
  P (updateExistingMesh env frame rs x m s).

Lemma deleteOldMeshes_preserves meshes s :
  P s -> P (deleteOldMeshes meshes s).
Proof. intros HP. apply deleteOldMeshes_ind; eauto. Qed.

Lemma processMeshes_preserves env frame rs cp cf meshes c s :
  P s -> P (snd (processMeshes env frame rs cp cf meshes c s)).
Proof.
  intros HP. apply processMeshes_ind; [done|].
  intros s' x c' Hs _. apply processMesh_cases; eauto.
Qed.

Lemma updateMeshes_preserves env frame s :
  P s -> P (updateMeshes env frame s).
Proof.
  intros HP. unfold updateMeshes.
  destruct frame as [frame|]; [|done].
  destruct (detectedMeshes frame) as [meshes|]; [|done].
  destruct (_ <? _)%float; [done|].
  destruct (getReferenceSpace env) as [rs|]; [|by apply P_time].
  destruct (getCameraInfo frame rs) as [cp cf].
  apply processMeshes_preserves, deleteOldMeshes_preserves, P_time, HP.
Qed.
End Preservation.

(** ** The scene-graph operations *)

Lemma remove_absent m l : m ∉ l -> THREE.remove m l = l.
Proof.
  induction l as [|a l IH]; simpl; [done|].
  intros Hin. apply not_elem_of_cons in Hin as [Hne Hin].
  destruct (decide (a = m)); [congruence|]. by rewrite IH.
Qed.

Lemma elem_of_remove m m' l :
  NoDup l -> m' ∈ THREE.remove m l <-> m' ∈ l /\ m' <> m.
Proof.
  induction l as [|a l IH]; simpl; intros Hnd.
  - split; [by intros ?%elem_of_nil | by intros [?%elem_of_nil _]].
  - apply NoDup_cons in Hnd as [Ha Hnd].
    destruct (decide (a = m)) as [->|Hne].
    + rewrite elem_of_cons. split.
      * intros Hin. split; [by right|]. by intros ->.
      * intros [[->|Hin] Hm]; done.
    + rewrite !elem_of_cons, IH by done. split.
      * intros [->|[Hin Hm]]; split; auto.
      * intros [[->|Hin] Hm]; auto.
Qed.

Lemma NoDup_remove m l : NoDup l -> NoDup (THREE.remove m l).
Proof.
  induction l as [|a l IH]; simpl; intros Hnd; [done|].
  apply NoDup_cons in Hnd as [Ha Hnd].
  destruct (decide (a = m)); [done|].
  apply NoDup_cons. split; [|by apply IH].
  rewrite elem_of_remove by done. by intros [? _].
Qed.

(** ** The disposal flags of the store *)

Lemma flags_alter (f : DetectedMesh -> DetectedMesh) m (st : list DetectedMesh) :
  (forall o, disposed (f o) = disposed o) ->
  disposed <$> alter f m st = disposed <$> st.
Proof.
  intros Hf. apply list_eq. intros i.
  rewrite !list_lookup_fmap.
  destruct (decide (i = m)) as [->|Hne].
  - rewrite list_lookup_alter_eq. destruct (st !! m); simpl; [|done].
    by rewrite Hf.
  - by rewrite list_lookup_alter_ne.
Qed.

Lemma flags_lookup (st : list DetectedMesh) m o :
  st !! m = Some o -> (disposed <$> st) !! m = Some (disposed o).
Proof. intros H. by rewrite list_lookup_fmap, H. Qed.

Lemma flags_lookup_inv (st : list DetectedMesh) m b :
  (disposed <$> st) !! m = Some b ->
  exists o, st !! m = Some o /\ disposed o = b.
Proof.
  rewrite list_lookup_fmap. destruct (st !! m) as [o|]; simpl; [|done].
  intros [= <-]. eauto.
Qed.

(** Consistency reads the store only through its disposal flags. *)
Lemma consistent_ext s s' :
  consistent s ->
  xrMeshToThreeMesh s' = xrMeshToThreeMesh s ->
  threeMeshToXrMesh s' = threeMeshToXrMesh s ->
  children s' = children s ->
  disposed <$> store s' = disposed <$> store s ->
  consistent s'.
Proof.
  intros [H1 H2 H3 H4 H5 H6] Hf Hr Hc Hd.
  assert (Hlen : length (store s') = length (store s)).
  { by rewrite <- (length_fmap disposed (store s')), Hd, length_fmap. }
  split; rewrite ?Hf, ?Hr, ?Hc, ?Hlen; auto.
  intros m o Ho. apply flags_lookup in Ho. rewrite Hd in Ho.
  apply flags_lookup_inv in Ho as (o' & Ho' & <-). by apply H6.
Qed.

(** ** What each mutation does to the fields *)

Lemma updateMeshPose_flags env frame rs x m s :
  disposed <$> store (updateMeshPose env frame rs x m s)
  = disposed <$> store s.
Proof.
  unfold updateMeshPose. destruct (getPose _ _ _); [|done].
  simpl. by apply flags_alter.
Qed.

Lemma updateMeshPose_length env frame rs x m s :
  length (store (updateMeshPose env frame rs x m s)) = length (store s).
Proof.
  rewrite <- !(length_fmap disposed). by rewrite updateMeshPose_flags.
Qed.

Lemma addNewMesh_forward env frame rs x s :
  xrMeshToThreeMesh (addNewMesh env frame rs x s)
  = <[x := length (store s)]> (xrMeshToThreeMesh s).
Proof.
  unfold addNewMesh, createMesh, updateMeshPose.
  by destruct (getPose _ _ _).
Qed.

Lemma addNewMesh_reverse env frame rs x s :
  threeMeshToXrMesh (addNewMesh env frame rs x s)
  = <[length (store s) := x]> (threeMeshToXrMesh s).
Proof.
  unfold addNewMesh, createMesh, updateMeshPose.
  by destruct (getPose _ _ _).
Qed.

Lemma addNewMesh_children env frame rs x s :
  children (addNewMesh env frame rs x s)
  = THREE.add (length (store s)) (children s).
Proof.
  unfold addNewMesh, createMesh, updateMeshPose.
  by destruct (getPose _ _ _).
Qed.

Lemma addNewMesh_flags env frame rs x s :
  disposed <$> store (addNewMesh env frame rs x s)
  = (disposed <$> store s) ++ [false].
Proof.
  unfold addNewMesh, createMesh, updateMeshPose.
  destruct (getPose _ _ _); simpl; destruct (physics s); simpl;
    rewrite ?flags_alter by done; by rewrite fmap_app.
Qed.

Lemma addNewMesh_length env frame rs x s :
  length (store (addNewMesh env frame rs x s)) = S (length (store s)).
Proof.
  rewrite <- !(length_fmap disposed), addNewMesh_flags, length_app. simpl. lia.
Qed.

Lemma updateExistingMesh_flags env frame rs x m s :
  disposed <$> store (updateExistingMesh env frame rs x m s)
  = disposed <$> store s.
Proof.
  unfold updateExistingMesh. rewrite updateMeshPose_flags. simpl.
  by apply flags_alter.
Qed.

Lemma updateExistingMesh_forward env frame rs x m s :
  xrMeshToThreeMesh (updateExistingMesh env frame rs x m s)
  = xrMeshToThreeMesh s.
Proof.
  unfold updateExistingMesh, updateMeshPose. by destruct (getPose _ _ _).
Qed.

Lemma updateExistingMesh_reverse env frame rs x m s :
  threeMeshToXrMesh (updateExistingMesh env frame rs x m s)
  = threeMeshToXrMesh s.
Proof.
  unfold updateExistingMesh, updateMeshPose. by destruct (getPose _ _ _).
Qed.

Lemma updateExistingMesh_children env frame rs x m s :
  children (updateExistingMesh env frame rs x m s) = children s.
Proof.
  unfold updateExistingMesh, updateMeshPose. by destruct (getPose _ _ _).
Qed.

(** ** Consistency is kept by every mutation *)

Lemma consistent_initial : consistent initial.
Proof.
  split; simpl; try done.
  - intros m. split; [by intros ?%elem_of_nil|].
    rewrite lookup_empty. by intros [? ?].
  - apply NoDup_nil_2.
Qed.

Lemma consistent_time now s :
  consistent s -> consistent (withLastMeshUpdateTime now s).
Proof. intros H. by apply (consistent_ext s). Qed.

Lemma consistent_remove x m s :
  consistent s -> xrMeshToThreeMesh s !! x = Some m ->
  consistent (removeMesh x m s).
Proof.
  intros [H1 H2 H3 H4 H5 H6] Hx. pose proof (H1 _ _ Hx) as Hm.
  split; simpl.
  - intros x' m' H. apply lookup_delete_Some in H as [Hne H].
    apply lookup_delete_Some. split; [|by apply H1].
    intros <-. apply H1 in H. congruence.
  - intros m' x' H. apply lookup_delete_Some in H as [Hne H].
    apply lookup_delete_Some. split; [|by apply H2].
    intros <-. apply H2 in H. congruence.
  - intros m' x' H. apply lookup_delete_Some in H as [Hne H].
    rewrite length_alter. by eapply H3.
  - intros m'. rewrite elem_of_remove by done. rewrite H4.
    split.
    + intros [[x' Hx'] Hne]. exists x'. by apply lookup_delete_Some.
    + intros [x' Hx']. apply lookup_delete_Some in Hx' as [Hne Hx'].
      split; [by exists x'|done].
  - by apply NoDup_remove.
  - intros m' o Ho. destruct (decide (m' = m)) as [->|Hne].
    + rewrite lookup_delete_eq.
      rewrite list_lookup_alter_eq in Ho.
      destruct (store s !! m) as [o'|]; simpl in Ho; [|done].
      injection Ho as <-. done.
    + rewrite list_lookup_alter_ne in Ho by done.
      rewrite lookup_delete_ne by done. by apply H6.
Qed.

Lemma consistent_add env frame rs x s :
  consistent s -> xrMeshToThreeMesh s !! x = None ->
  consistent (addNewMesh env frame rs x s).
Proof.
  intros [H1 H2 H3 H4 H5 H6] Hx.
  assert (Hfresh : threeMeshToXrMesh s !! length (store s) = None).
  { destruct (threeMeshToXrMesh s !! length (store s)) as [x'|] eqn:E;
      [|done]. apply H3 in E. lia. }
  assert (Hdetached : length (store s) ∉ children s).
  { rewrite H4, Hfresh. by intros [? ?]. }
  split; rewrite ?addNewMesh_forward, ?addNewMesh_reverse,
           ?addNewMesh_children, ?addNewMesh_length.
  - intros x' m' H. apply lookup_insert_Some in H as [[<- <-]|[Hne H]].
    + by rewrite lookup_insert_eq.
    + rewrite lookup_insert_ne; [by apply H1|].
      intros <-. apply H1 in H. congruence.
  - intros m' x' H. apply lookup_insert_Some in H as [[<- <-]|[Hne H]].
    + by rewrite lookup_insert_eq.
    + rewrite lookup_insert_ne; [by apply H2|].
      intros <-. apply H2 in H. congruence.
  - intros m' x' H. apply lookup_insert_Some in H as [[<- <-]|[Hne H]];
      [lia|]. apply H3 in H. lia.
  - intros m'. unfold THREE.add. rewrite remove_absent by done.
    rewrite elem_of_app, list_elem_of_singleton, H4.
    destruct (decide (m' = length (store s))) as [->|Hne].
    + rewrite lookup_insert_eq. split; eauto.
    + rewrite lookup_insert_ne by done. split; [by intros [?|?]|auto].
  - unfold THREE.add. rewrite remove_absent by done.
    apply NoDup_app. split; [done|]. split; [|apply NoDup_singleton].
    intros m' Hin ->%list_elem_of_singleton. done.
  - intros m' o Ho. apply flags_lookup in Ho.
    rewrite addNewMesh_flags in Ho.
    destruct (decide (m' = length (store s))) as [->|Hne].
    + rewrite lookup_insert_eq.
      rewrite lookup_app_r in Ho by (by rewrite length_fmap).
      rewrite length_fmap, Nat.sub_diag in Ho. simpl in Ho.
      injection Ho as <-. done.
    + rewrite lookup_insert_ne by done.
      apply lookup_app_Some in Ho as [Ho|[Hge Ho]].
      * apply flags_lookup_inv in Ho as (o' & Ho' & <-). by apply H6.
      * rewrite length_fmap in Hge, Ho.
        destruct (m' - length (store s)) as [|k] eqn:E; [lia|done].
Qed.

Lemma consistent_update env frame rs x m s :
  consistent s -> consistent (updateExistingMesh env frame rs x m s).
Proof.
  intros H. apply (consistent_ext s); auto using updateExistingMesh_forward,
    updateExistingMesh_reverse, updateExistingMesh_children,
    updateExistingMesh_flags.
Qed.

Lemma consistent_updateMeshes env frame s :
  consistent s -> consistent (updateMeshes env frame s).
Proof.
  apply updateMeshes_preserves;
    eauto using consistent_time, consistent_remove, consistent_add,
                consistent_update.
Qed.

Lemma consistent_init options s : consistent s -> consistent (init options s).
Proof.
  intros H. unfold init. destruct (showDebugVisualizations options); [|done].
  by apply (consistent_ext s).
Qed.

Lemma initPhysics_flags physics s :
  disposed <$> store (initPhysics physics s) = disposed <$> store s.
Proof.
  simpl. generalize (map_to_list (xrMeshToThreeMesh s)) as l.
  generalize (store s) as st. intros st l. revert st.
  induction l as [|[x m] l IH]; intros st; simpl; [done|].
  rewrite IH. by apply flags_alter.
Qed.

Lemma consistent_initPhysics physics s :
  consistent s -> consistent (initPhysics physics s).
Proof.
  intros H. apply (consistent_ext s); auto using initPhysics_flags.
Qed.

Lemma reachable_consistent s : reachable s -> consistent s.
Proof.
  induction 1; auto using consistent_initial, consistent_init,
    consistent_initPhysics, consistent_updateMeshes.
Qed.

(** ** The forward map through the two loops *)

Lemma processMesh_forward env frame rs cp cf x c s x' :
  xrMeshToThreeMesh (snd (processMesh env frame rs cp cf x c s)) !! x'
  = if decide (x' = x) then
      if shouldShowMeshInView env x cp cf frame rs
      then Some (default (length (store s)) (xrMeshToThreeMesh s !! x))
      else None
    else xrMeshToThreeMesh s !! x'.
Proof.
  unfold processMesh.
  destruct (decide (x' = x)) as [->|Hne];
    destruct (shouldShowMeshInView env x cp cf frame rs); cbn [negb];
    destruct (xrMeshToThreeMesh s !! x) as [m|] eqn:Hx; cbn [snd default];
    rewrite ?addNewMesh_forward, ?updateExistingMesh_forward;
    cbn [removeMesh xrMeshToThreeMesh];
    rewrite ?lookup_delete_eq, ?lookup_delete_ne, ?lookup_insert_eq,
            ?lookup_insert_ne by done; done.
Qed.

Lemma deleteOldMeshes_forward meshes s x :
  xrMeshToThreeMesh (deleteOldMeshes meshes s) !! x
  = if bool_decide (x ∈ meshes) then xrMeshToThreeMesh s !! x else None.
Proof.
  unfold deleteOldMeshes.
  set (step := fun (this : MeshDetector) '(xrMesh, threeMesh) =>
                 if bool_decide (xrMesh ∈ meshes) then this
                 else removeMesh xrMesh threeMesh this).
  assert (Hgen : forall (l : list (N * nat)) s',
    xrMeshToThreeMesh (foldl step s' l) !! x
    = if bool_decide (x ∈ meshes) then xrMeshToThreeMesh s' !! x
      else if bool_decide (x ∈ l.*1) then None
           else xrMeshToThreeMesh s' !! x).
  { induction l as [|[x0 m0] l IH]; intros s'; simpl.
    - by repeat case_bool_decide.
    - rewrite IH. destruct (decide (x = x0)) as [->|Hne].
      + destruct (bool_decide (x0 ∈ meshes)) eqn:E; [done|].
        rewrite (bool_decide_eq_true_2 (x0 ∈ x0 :: _)) by left.
        cbn. rewrite lookup_delete_eq. by case_bool_decide.
      + assert (Hs : xrMeshToThreeMesh
                       (if bool_decide (x0 ∈ meshes) then s'
                        else removeMesh x0 m0 s') !! x
                     = xrMeshToThreeMesh s' !! x).
        { destruct (bool_decide (x0 ∈ meshes)); [done|].
          by apply removeMesh_forward_ne. }
        rewrite Hs. destruct (bool_decide (x ∈ meshes)); [done|].
        rewrite (bool_decide_ext (x ∈ x0 :: _) (x ∈ l.*1)); [done|].
        rewrite elem_of_cons. split; [by intros [?|?]|by right]. }
  rewrite Hgen. case_bool_decide; [done|]. case_bool_decide; [done|].
  destruct (xrMeshToThreeMesh s !! x) as [m|] eqn:Hx; [|done].
  exfalso. apply H0. apply list_elem_of_fmap. exists (x, m).
  split; [done|]. by apply elem_of_map_to_list.
Qed.

(** ** The counter of the second loop *)

Lemma processMeshes_stopped env frame rs cp cf meshes c s :
  (MAX_MESHES_PER_FRAME <= c)%Z ->
  processMeshes env frame rs cp cf meshes c s = (c, s).
Proof.
  intros Hc. destruct meshes as [|x rest]; simpl; [done|].
  destruct (Z.geb_spec c MAX_MESHES_PER_FRAME); [done|lia].
Qed.

Lemma processMesh_count env frame rs cp cf x c s :
  fst (processMesh env frame rs cp cf x c s)
  = if shouldShowMeshInView env x cp cf frame rs then (c + 1)%Z else c.
Proof.
  unfold processMesh.
  destruct (shouldShowMeshInView env x cp cf frame rs); simpl;
    by destruct (xrMeshToThreeMesh s !! x).
Qed.

Lemma shownCount_cons env frame rs cp cf x before :
  shownCount env frame rs cp cf (x :: before)
  = ((if shouldShowMeshInView env x cp cf frame rs then 1 else 0)
     + shownCount env frame rs cp cf before)%Z.
Proof.
  unfold shownCount. rewrite filter_cons.
  destruct (shouldShowMeshInView env x cp cf frame rs); case_decide;
    try done; simpl length; lia.
Qed.

Lemma shownCount_nonneg env frame rs cp cf before :
  (0 <= shownCount env frame rs cp cf before)%Z.
Proof. unfold shownCount. lia. Qed.

Lemma processMeshes_app env frame rs cp cf before after c s :
  processMeshes env frame rs cp cf (before ++ after) c s
  = processMeshes env frame rs cp cf after
      (fst (processMeshes env frame rs cp cf before c s))
      (snd (processMeshes env frame rs cp cf before c s)).
Proof.
  revert c s. induction before as [|x before IH]; intros c s; simpl; [done|].
  destruct (Z.geb_spec c MAX_MESHES_PER_FRAME) as [Hge|Hlt]; simpl.
  - by rewrite processMeshes_stopped by lia.
  - destruct (processMesh env frame rs cp cf x c s) as [c' s']. apply IH.
Qed.

Lemma processMeshes_count env frame rs cp cf before c s :
  (c + shownCount env frame rs cp cf before < MAX_MESHES_PER_FRAME)%Z ->
  fst (processMeshes env frame rs cp cf before c s)
  = (c + shownCount env frame rs cp cf before)%Z.
Proof.
  revert c s. induction before as [|x before IH]; intros c s.
  - unfold shownCount. simpl. lia.
  - rewrite shownCount_cons. intros Hlt. simpl.
    pose proof (shownCount_nonneg env frame rs cp cf before).
    destruct (Z.geb_spec c MAX_MESHES_PER_FRAME) as [Hge|Hc].
    { destruct (shouldShowMeshInView env x cp cf frame rs); lia. }
    pose proof (processMesh_count env frame rs cp cf x c s) as Hcount.
    destruct (processMesh env frame rs cp cf x c s) as [c' s'].
    simpl in Hcount. rewrite IH; subst c';
      destruct (shouldShowMeshInView env x cp cf frame rs); lia.
Qed.

Lemma processMeshes_count_capped env frame rs cp cf before c s :
  (MAX_MESHES_PER_FRAME <= c + shownCount env frame rs cp cf before)%Z ->
  (MAX_MESHES_PER_FRAME <= fst (processMeshes env frame rs cp cf before c s))%Z.
Proof.
  revert c s. induction before as [|x before IH]; intros c s.
  - unfold shownCount. simpl. lia.
  - rewrite shownCount_cons. intros Hle. simpl.
    destruct (Z.geb_spec c MAX_MESHES_PER_FRAME) as [Hge|Hc]; [done|].
    pose proof (processMesh_count env frame rs cp cf x c s) as Hcount.
    destruct (processMesh env frame rs cp cf x c s) as [c' s'].
    simpl in Hcount. apply IH. subst c'.
    destruct (shouldShowMeshInView env x cp cf frame rs); lia.
Qed.

(** Reaching a mesh of the feed: a property [P] carried through the meshes
    before it, turned into [Q] by its own iteration, and [Q] carried
    through the meshes after it. *)
Lemma processMeshes_reach (P Q : MeshDetector -> Prop) env frame rs cp cf
    before x after c s :
  (c + shownCount env frame rs cp cf before < MAX_MESHES_PER_FRAME)%Z ->
  P s ->
  (forall s' x' c', P s' -> x' ∈ before ->
                    P (snd (processMesh env frame rs cp cf x' c' s'))) ->
  (forall s' c', P s' -> Q (snd (processMesh env frame rs cp cf x c' s'))) ->
  (forall s' x' c', Q s' -> x' ∈ after ->
                    Q (snd (processMesh env frame rs cp cf x' c' s'))) ->
  Q (snd (processMeshes env frame rs cp cf (before ++ x :: after) c s)).
Proof.
  intros Hlt HP Hbefore Hx Hafter.
  rewrite processMeshes_app, processMeshes_count by done.
  pose proof (shownCount_nonneg env frame rs cp cf before).
  cbn [processMeshes].
  destruct (Z.geb_spec (c + shownCount env frame rs cp cf before)
              MAX_MESHES_PER_FRAME) as [Hge|_]; [lia|].
  destruct (processMesh env frame rs cp cf x _ _) as [c' s'] eqn:Hpm.
  apply processMeshes_ind; [|done].
  change s' with (snd (c', s')). rewrite <- Hpm. apply Hx.
  by apply processMeshes_ind.
Qed.

(** Past the cap the rest of the feed is not looked at. *)
Lemma processMeshes_capped env frame rs cp cf before after c s :
  (MAX_MESHES_PER_FRAME <= c + shownCount env frame rs cp cf before)%Z ->
  processMeshes env frame rs cp cf (before ++ after) c s
  = processMeshes env frame rs cp cf before c s.
Proof.
  intros Hle. rewrite processMeshes_app.
  rewrite processMeshes_stopped by (by apply processMeshes_count_capped).
  by destruct (processMeshes env frame rs cp cf before c s).
Qed.

(** ** An eligible call, and what it leaves of the old state *)

Lemma updateMeshes_eligible env frame meshes rs s :
  detectedMeshes frame = Some meshes ->
  throttled env s = false ->
  getReferenceSpace env = Some rs ->
  updateMeshes env (Some frame) s
  = snd (processMeshes env frame rs
           (fst (getCameraInfo frame rs)) (snd (getCameraInfo frame rs))
           meshes 0
           (deleteOldMeshes meshes
              (withLastMeshUpdateTime (performance_now env) s))).
Proof.
  unfold updateMeshes, throttled. intros -> -> ->.
  by destruct (getCameraInfo frame rs).
Qed.

Lemma updateExistingMesh_length env frame rs x m s :
  length (store (updateExistingMesh env frame rs x m s)) = length (store s).
Proof.
  rewrite <- !(length_fmap disposed). by rewrite updateExistingMesh_flags.
Qed.

Lemma updateMeshes_extends env frame s : extends s (updateMeshes env frame s).
Proof.
  apply (updateMeshes_preserves (extends s)).
  - intros now s' H. exact H.
  - intros x m s' [Hlen Hold] _. split; simpl.
    + by rewrite length_alter.
    + intros x' m' H. apply lookup_delete_Some in H as [_ H]. by apply Hold.
  - intros env' frame' rs x s' [Hlen Hold] _. split.
    + rewrite addNewMesh_length. lia.
    + intros x' m'. rewrite addNewMesh_forward.
      intros H Hm'. apply lookup_insert_Some in H as [[_ <-]|[_ H]]; [lia|].
      by apply Hold.
  - intros env' frame' rs x m s' [Hlen Hold] _. split.
    + by rewrite updateExistingMesh_length.
    + intros x' m'. rewrite updateExistingMesh_forward. apply Hold.
  - split; [done|auto].
Qed.

(** A handle that was mapped and no longer is has had its object taken
    down. *)
Lemma released_after s s' x m :
  consistent s -> consistent s' -> extends s s' ->
  xrMeshToThreeMesh s !! x = Some m ->
  xrMeshToThreeMesh s' !! x = None ->
  threeMeshToXrMesh s' !! m = None /\
  (exists o, store s' !! m = Some o /\ disposed o = true) /\
  m ∉ children s'.
Proof.
  intros Hs Hs' [Hlen Hold] Hx Hx'.
  pose proof (forward_reverse s Hs _ _ Hx) as Hm.
  pose proof (reverse_allocated s Hs _ _ Hm) as Halloc.
  assert (Hgone : threeMeshToXrMesh s' !! m = None).
  { destruct (threeMeshToXrMesh s' !! m) as [x'|] eqn:E; [|done].
    apply (reverse_forward s' Hs') in E.
    pose proof (Hold _ _ E Halloc) as E0.
    apply (forward_reverse s Hs) in E0. congruence. }
  split; [done|]. split.
  - destruct (lookup_lt_is_Some_2 (store s') m) as [o Ho]; [lia|].
    exists o. split; [done|]. by apply (disposed_unmapped s' Hs' m o Ho).
  - rewrite (attached_mapped s' Hs'), Hgone. by intros [? ?].
Qed.

(** A handle that is mapped has a live object attached to the scene. *)
Lemma mapped_live s x m :
  consistent s -> xrMeshToThreeMesh s !! x = Some m ->
  threeMeshToXrMesh s !! m = Some x /\
  (exists o, store s !! m = Some o /\ disposed o = false) /\
  m ∈ children s.
Proof.
  intros Hs Hx. pose proof (forward_reverse s Hs _ _ Hx) as Hm.
  split; [done|]. split.
  - destruct (lookup_lt_is_Some_2 (store s) m) as [o Ho].
    { by eapply reverse_allocated. }
    exists o. split; [done|].
    destruct (disposed o) eqn:E; [|done].
    apply (disposed_unmapped s Hs m o Ho) in E. congruence.
  - apply (attached_mapped s Hs). by exists x.
Qed.

(** ** Fields the loops never write *)

Lemma sameSettings_remove s x m s' :
  sameSettings s s' -> sameSettings s (removeMesh x m s').
Proof. done. Qed.

Lemma sameSettings_add s env frame rs x s' :
  sameSettings s s' -> sameSettings s (addNewMesh env frame rs x s').
Proof.
  unfold sameSettings, addNewMesh, createMesh, updateMeshPose.
  by destruct (getPose _ _ _).
Qed.

Lemma sameSettings_update s env frame rs x m s' :
  sameSettings s s' -> sameSettings s (updateExistingMesh env frame rs x m s').
Proof.
  unfold sameSettings, updateExistingMesh, updateMeshPose.
  by destruct (getPose _ _ _).
Qed.

Lemma loops_sameSettings env frame rs cp cf meshes c s :
  sameSettings s
    (snd (processMeshes env frame rs cp cf meshes c
            (deleteOldMeshes meshes s))).
Proof.
  apply (processMeshes_preserves (sameSettings s));
    eauto using sameSettings_remove, sameSettings_add, sameSettings_update.
  apply (deleteOldMeshes_preserves (sameSettings s));
    eauto using sameSettings_remove.
  done.
Qed.

Lemma updateMeshes_time env frame meshes s :
  detectedMeshes frame = Some meshes ->
  throttled env s = false ->
  lastMeshUpdateTime (updateMeshes env (Some frame) s) = performance_now env.
Proof.
  intros Hm Ht. unfold updateMeshes. rewrite Hm. fold (throttled env s).
  rewrite Ht. destruct (getReferenceSpace env) as [rs|]; [|done].
  destruct (getCameraInfo frame rs) as [cp cf].
  by destruct (loops_sameSettings env frame rs cp cf meshes 0
                 (withLastMeshUpdateTime (performance_now env) s))
    as (_ & _ & _ & ->).
Qed.

(** * The claims *)

(** C1. Bijection invariant of the mapping tables: in every state reached
    from the freshly constructed detector by any sequence of calls, a
    handle [h] mapped by [xrMeshToThreeMesh] to a mesh is mapped back to
    [h] by [threeMeshToXrMesh], and conversely; neither map holds an entry
    without its inverse. *)
Theorem mapping_bijection (this : MeshDetector) :
  reachable this ->
  (forall h threeMesh,
     xrMeshToThreeMesh this !! h = Some threeMesh ->
     threeMeshToXrMesh this !! threeMesh = Some h) /\
  (forall threeMesh h,
     threeMeshToXrMesh this !! threeMesh = Some h ->
     xrMeshToThreeMesh this !! h = Some threeMesh).
Proof.
  intros Hreach. apply reachable_consistent in Hreach.
  split; [apply (forward_reverse this Hreach)
         |apply (reverse_forward this Hreach)].
Qed.

Lemma mapping_bijection_witness :
  reachable afterFirstTick /\
  xrMeshToThreeMesh afterFirstTick !! 7%N = Some 0 /\
  ((forall h threeMesh,
      xrMeshToThreeMesh afterFirstTick !! h = Some threeMesh ->
      threeMeshToXrMesh afterFirstTick !! threeMesh = Some h) /\
   (forall threeMesh h,
      threeMeshToXrMesh afterFirstTick !! threeMesh = Some h ->
      xrMeshToThreeMesh afterFirstTick !! h = Some threeMesh)).
Proof.
  assert (H : reachable afterFirstTick)
    by apply reachable_updateMeshes, reachable_initial.
  split; [exact H|]. split; [vm_compute; reflexivity|].
  exact (mapping_bijection afterFirstTick H).
Defined.

Lemma first_call_throttled env frame s :
  throttled env s = true -> updateMeshes env frame s = s.
Proof.
  unfold throttled, updateMeshes. intros H.
  destruct frame as [frame|]; [|done].
  destruct (detectedMeshes frame); [|done]. by rewrite H.
Qed.

(** C2, as the code has it.  Throttle gate: a call of [updateMeshes]
    whose clock reading minus [lastMeshUpdateTime] is below
    [MESH_UPDATE_INTERVAL_MS] returns the detector as it was, every field
    included; in particular a call made less than the interval after a
    call that had a feed and passed the gate itself, and so stored its
    clock reading, changes nothing. *)
Theorem updateMeshes_throttled :
  (forall env frame this,
     (performance_now env - lastMeshUpdateTime this
        <? MESH_UPDATE_INTERVAL_MS)%float = true ->
     updateMeshes env frame this = this) /\
  (forall env1 frame1 meshes env2 frame2 this,
     detectedMeshes frame1 = Some meshes ->
     (performance_now env1 - lastMeshUpdateTime this
        <? MESH_UPDATE_INTERVAL_MS)%float = false ->
     (performance_now env2 - performance_now env1
        <? MESH_UPDATE_INTERVAL_MS)%float = true ->
     updateMeshes env2 frame2 (updateMeshes env1 (Some frame1) this)
     = updateMeshes env1 (Some frame1) this).
Proof.
  assert (Hgate : forall env frame this,
     (performance_now env - lastMeshUpdateTime this
        <? MESH_UPDATE_INTERVAL_MS)%float = true ->
     updateMeshes env frame this = this).
  { intros env frame this H. unfold updateMeshes.
    destruct frame as [frame|]; [|done].
    destruct (detectedMeshes frame); [|done]. by rewrite H. }
  split; [exact Hgate|].
  intros env1 frame1 meshes env2 frame2 this Hm H1 H2.
  apply Hgate. by rewrite (updateMeshes_time env1 frame1 meshes).
Qed.

Lemma updateMeshes_throttled_witness :
  let env1 := envAt 1000 (Some "floor"%string) [1; 2; 3]%float in
  let frame1 := frameOf [7%N] (fun _ => None) in
  let env2 := envAt 1500 None [] in
  let frame2 := frameOf [] (fun _ => None) in
  (performance_now env2 - lastMeshUpdateTime afterFirstTick
     <? MESH_UPDATE_INTERVAL_MS)%float = true /\
  updateMeshes env2 (Some frame2) afterFirstTick = afterFirstTick /\
  (performance_now env1 - lastMeshUpdateTime initial
     <? MESH_UPDATE_INTERVAL_MS)%float = false /\
  (performance_now env2 - performance_now env1
     <? MESH_UPDATE_INTERVAL_MS)%float = true /\
  updateMeshes env2 (Some frame2) (updateMeshes env1 (Some frame1) initial)
  = updateMeshes env1 (Some frame1) initial.
Proof.
  intros env1 frame1 env2 frame2.
  assert (H1 : (performance_now env2 - lastMeshUpdateTime afterFirstTick
                  <? MESH_UPDATE_INTERVAL_MS)%float = true)
    by (vm_compute; reflexivity).
  assert (H2 : (performance_now env1 - lastMeshUpdateTime initial
                  <? MESH_UPDATE_INTERVAL_MS)%float = false)
    by (vm_compute; reflexivity).
  assert (H3 : (performance_now env2 - performance_now env1
                  <? MESH_UPDATE_INTERVAL_MS)%float = true)
    by (vm_compute; reflexivity).
  split; [exact H1|].
  split; [exact (proj1 updateMeshes_throttled env2 (Some frame2)
                   afterFirstTick H1)|].
  split; [exact H2|]. split; [exact H3|].
  exact (proj2 updateMeshes_throttled env1 frame1 [7%N] env2 (Some frame2)
           initial eq_refl H2 H3).
Defined.

(** C2, as it is stated, fails for the second of two calls that are less
    than the interval apart when the first of them was throttled, since a
    throttled call stores no clock reading.  From the initial state,
    calls at 999.5 and 1000.5 are one millisecond apart and the second
    maps the mesh 7; after the reconciliation at 1000, calls at 1990 and
    2001 are eleven milliseconds apart and the second unmaps the mesh 7
    and maps the mesh 8. *)
Lemma second_call_within_interval_reconciles :
  (let env1 := envAt 999.5 None [] in
   let env2 := envAt 1000.5 None [] in
   let frame := frameOf [7%N] (fun _ => None) in
   let first := updateMeshes env1 (Some frame) initial in
   let second := updateMeshes env2 (Some frame) first in
   (performance_now env2 - performance_now env1
      <? MESH_UPDATE_INTERVAL_MS)%float = true /\
   first = initial /\
   xrMeshToThreeMesh first !! 7%N = None /\
   xrMeshToThreeMesh second !! 7%N = Some 0 /\
   threeMeshToXrMesh second !! 0 = Some 7%N /\
   children second = [0] /\
   xrMeshToThreeMesh second <> xrMeshToThreeMesh first) /\
  (let env1 := envAt 1990 None [] in
   let env2 := envAt 2001 None [] in
   let frame := frameOf [8%N] (fun _ => None) in
   let first := updateMeshes env1 (Some frame) afterFirstTick in
   let second := updateMeshes env2 (Some frame) first in
   (performance_now env2 - performance_now env1
      <? MESH_UPDATE_INTERVAL_MS)%float = true /\
   first = afterFirstTick /\
   xrMeshToThreeMesh first !! 7%N = Some 0 /\
   xrMeshToThreeMesh first !! 8%N = None /\
   xrMeshToThreeMesh second !! 7%N = None /\
   xrMeshToThreeMesh second !! 8%N = Some 1 /\
   children second = [1] /\
   xrMeshToThreeMesh second <> xrMeshToThreeMesh first).
Proof.
  split.
  - intros env1 env2 frame first second.
    assert (Hfirst : first = initial).
    { apply (first_call_throttled env1 (Some frame) initial).
      vm_compute. reflexivity. }
    assert (H7 : xrMeshToThreeMesh second !! 7%N = Some 0)
      by (vm_compute; reflexivity).
    split; [vm_compute; reflexivity|]. split; [exact Hfirst|].
    split; [by rewrite Hfirst|]. split; [exact H7|].
    split; [vm_compute; reflexivity|]. split; [vm_compute; reflexivity|].
    intros Heq. rewrite Heq, Hfirst in H7. done.
  - intros env1 env2 frame first second.
    assert (Hfirst : first = afterFirstTick).
    { apply (first_call_throttled env1 (Some frame) afterFirstTick).
      vm_compute. reflexivity. }
    assert (H8 : xrMeshToThreeMesh second !! 8%N = Some 1)
      by (vm_compute; reflexivity).
    assert (H8' : xrMeshToThreeMesh first !! 8%N = None)
      by (vm_compute; reflexivity).
    split; [vm_compute; reflexivity|]. split; [exact Hfirst|].
    split; [vm_compute; reflexivity|]. split; [exact H8'|].
    split; [vm_compute; reflexivity|]. split; [exact H8|].
    split; [vm_compute; reflexivity|].
    intros Heq. rewrite Heq, H8' in H8. done.
Qed.

(** C3. Disappearance cleanup: a handle mapped before a call that is
    neither throttled nor without reference space, and absent from the
    feed of that call, has afterwards no entry in the forward map, its
    mesh has no entry in the reverse map, the mesh has been disposed of
    (it was not before) and it is no longer a child of the script (it was
    before). *)
Theorem disappeared_mesh_removed env frame meshes rs this xrMesh threeMesh :
  reachable this ->
  detectedMeshes frame = Some meshes ->
  throttled env this = false ->
  getReferenceSpace env = Some rs ->
  xrMeshToThreeMesh this !! xrMesh = Some threeMesh ->
  xrMesh ∉ meshes ->
  let after := updateMeshes env (Some frame) this in
  xrMeshToThreeMesh after !! xrMesh = None /\
  threeMeshToXrMesh after !! threeMesh = None /\
  (exists mesh, store this !! threeMesh = Some mesh /\ disposed mesh = false) /\
  (exists mesh, store after !! threeMesh = Some mesh /\ disposed mesh = true) /\
  threeMesh ∈ children this /\
  threeMesh ∉ children after.
Proof.
  intros Hreach Hm Ht Hrs Hx Hout after.
  apply reachable_consistent in Hreach.
  assert (Hgone : xrMeshToThreeMesh after !! xrMesh = None).
  { unfold after. rewrite (updateMeshes_eligible env frame meshes rs) by done.
    apply processMeshes_ind.
    - rewrite deleteOldMeshes_forward. by rewrite bool_decide_eq_false_2.
    - intros s x c Hs Hin. rewrite processMesh_forward.
      rewrite decide_False; [done|]. by intros ->. }
  destruct (released_after this after xrMesh threeMesh) as (H1 & H2 & H3);
    [done|by apply consistent_updateMeshes|apply updateMeshes_extends
    |done|done|].
  destruct (mapped_live this xrMesh threeMesh) as (_ & H4 & H5); [done..|].
  exact (conj Hgone (conj H1 (conj H4 (conj H2 (conj H5 H3))))).
Qed.

Lemma disappeared_mesh_removed_witness :
  let env := envAt 2000 None [] in
  let frame := frameOf [] (fun _ => None) in
  let after := updateMeshes env (Some frame) afterFirstTick in
  xrMeshToThreeMesh afterFirstTick !! 7%N = Some 0 /\
  xrMeshToThreeMesh after !! 7%N = None /\
  threeMeshToXrMesh after !! 0 = None /\
  (exists mesh, store afterFirstTick !! 0 = Some mesh /\ disposed mesh = false) /\
  (exists mesh, store after !! 0 = Some mesh /\ disposed mesh = true) /\
  0 ∈ children afterFirstTick /\
  0 ∉ children after.
Proof.
  intros env frame after.
  split; [vm_compute; reflexivity|].
  apply (disappeared_mesh_removed env frame [] 0%N afterFirstTick 7%N 0).
  - apply reachable_updateMeshes, reachable_initial.
  - reflexivity.
  - vm_compute. reflexivity.
  - reflexivity.
  - vm_compute. reflexivity.
  - apply not_elem_of_nil.
Defined.

(** C9. A call that passes the throttle gate while the renderer has no
    reference space leaves the two maps, the children and the objects as
    they were but has already stored the clock reading in
    [lastMeshUpdateTime], so that any call made less than the interval
    later is throttled.  A call without a frame, or whose frame has no
    [detectedMeshes], returns before the gate and changes nothing. *)
Theorem updateMeshes_without_reference_space :
  (forall env frame meshes this,
     detectedMeshes frame = Some meshes ->
     throttled env this = false ->
     getReferenceSpace env = None ->
     let after := updateMeshes env (Some frame) this in
     xrMeshToThreeMesh after = xrMeshToThreeMesh this /\
     threeMeshToXrMesh after = threeMeshToXrMesh this /\
     children after = children this /\
     store after = store this /\
     lastMeshUpdateTime after = performance_now env /\
     forall env2 frame2,
       (performance_now env2 - performance_now env
          <? MESH_UPDATE_INTERVAL_MS)%float = true ->
       updateMeshes env2 frame2 after = after) /\
  (forall env this, updateMeshes env None this = this) /\
  (forall env frame this,
     detectedMeshes frame = None -> updateMeshes env (Some frame) this = this).
Proof.
  split; [|split].
  - intros env frame meshes this Hm Ht Hrs after.
    assert (Hafter : after = withLastMeshUpdateTime (performance_now env) this).
    { unfold after, updateMeshes. rewrite Hm. fold (throttled env this).
      by rewrite Ht, Hrs. }
    rewrite Hafter. repeat (split; [reflexivity|]).
    intros env2 frame2 H2. unfold updateMeshes.
    destruct frame2 as [frame2|]; [|done].
    destruct (detectedMeshes frame2); [|done].
    cbn [lastMeshUpdateTime withLastMeshUpdateTime]. by rewrite H2.
  - done.
  - intros env frame this Hm. unfold updateMeshes. by rewrite Hm.
Qed.

Lemma updateMeshes_without_reference_space_witness :
  let env := mkEnv 2500 None (fun mesh => mesh) (fun _ => None) (fun _ => []) in
  let frame := frameOf [] (fun _ => None) in
  let after := updateMeshes env (Some frame) afterFirstTick in
  throttled env afterFirstTick = false /\
  xrMeshToThreeMesh after = xrMeshToThreeMesh afterFirstTick /\
  threeMeshToXrMesh after = threeMeshToXrMesh afterFirstTick /\
  children after = children afterFirstTick /\
  store after = store afterFirstTick /\
  lastMeshUpdateTime after = 2500%float /\
  forall env2 frame2,
    (performance_now env2 - 2500 <? MESH_UPDATE_INTERVAL_MS)%float = true ->
    updateMeshes env2 frame2 after = after.
Proof.
  intros env frame after.
  split; [vm_compute; reflexivity|].
  apply (proj1 updateMeshes_without_reference_space env frame []).
  - reflexivity.
  - vm_compute. reflexivity.
  - reflexivity.
Defined.

(** C4. Visibility predicate: for a mesh whose pose is available,
    [shouldShowMeshInView] answers false exactly when the distance from
    the viewer exceeds [kMaxViewDistance], or the distance exceeds the
    epsilon 0.001 and the cosine between the direction to the mesh and
    the viewer's forward vector is below [kFOVCosThreshold]; when the
    distance does not exceed the epsilon the cosine plays no part.  With
    the viewer at the origin facing -Z, a mesh at (0,0,-1) is shown, a
    mesh at (0,0,-5) is culled, its distance being above 3, and a mesh at
    (3,0,0) is culled by the cone test, its distance 3 not being above 3. *)
Theorem shouldShowMeshInView_spec :
  (forall env mesh cameraPosition cameraForward frame referenceSpace meshPose,
     getPose frame (meshSpace env mesh) referenceSpace = Some meshPose ->
     let meshPosition :=
       THREE.setFromMatrixPosition
         (THREE.fromArray (matrix (transform meshPose))) in
     let distance := viewDistance meshPosition cameraPosition in
     let cosine := viewCosine meshPosition cameraPosition cameraForward in
     let show := shouldShowMeshInView env mesh cameraPosition cameraForward
                   frame referenceSpace in
     (show = false <->
      (kMaxViewDistance <? distance)%float = true \/
      ((kEpsilon <? distance)%float = true /\
       (cosine <? kFOVCosThreshold)%float = true)) /\
     ((kEpsilon <? distance)%float = false ->
      show = negb (kMaxViewDistance <? distance)%float)) /\
  (let env := envAt 1000 None [] in
   let origin := THREE.mkVector3 0 0 0 in
   let minusZ := THREE.mkVector3 0 0 (-1) in
   let frame x y z := frameOf [1%N] (fun _ => Some (poseAt x y z)) in
   getCameraInfo (frame 0 0 (-1))%float 0%N = (origin, minusZ) /\
   shouldShowMeshInView env 1%N origin minusZ (frame 0 0 (-1))%float 0%N = true /\
   shouldShowMeshInView env 1%N origin minusZ (frame 0 0 (-5))%float 0%N = false /\
   (kMaxViewDistance <? viewDistance (THREE.mkVector3 0 0 (-5)) origin)%float
   = true /\
   shouldShowMeshInView env 1%N origin minusZ (frame 3 0 0)%float 0%N = false /\
   viewDistance (THREE.mkVector3 3 0 0) origin = 3%float /\
   (kMaxViewDistance <? viewDistance (THREE.mkVector3 3 0 0) origin)%float
   = false /\
   (viewCosine (THREE.mkVector3 3 0 0) origin minusZ <? kFOVCosThreshold)%float
   = true).
Proof.
  split.
  - intros env mesh cp cf frame rs meshPose Hpose meshPosition distance
           cosine show.
    assert (Hshow : show =
      if (kMaxViewDistance <? distance)%float then false
      else if (kEpsilon <? distance)%float then
             if (cosine <? kFOVCosThreshold)%float then false else true
           else true).
    { unfold show, shouldShowMeshInView. by rewrite Hpose. }
    rewrite Hshow.
    destruct (kMaxViewDistance <? distance)%float;
      destruct (kEpsilon <? distance)%float;
      destruct (cosine <? kFOVCosThreshold)%float; simpl;
      (split; [split; [intros ?|intros [?|[? ?]]]; try done; auto|done]).
  - vm_compute. repeat split.
Qed.

Lemma shouldShowMeshInView_spec_witness :
  let env := envAt 1000 None [] in
  let frame := frameOf [1%N] (fun _ => Some (poseAt 0 0 (-5))) in
  let origin := THREE.mkVector3 0 0 0 in
  let minusZ := THREE.mkVector3 0 0 (-1) in
  getPose frame (meshSpace env 1%N) 0%N = Some (poseAt 0 0 (-5)) /\
  (shouldShowMeshInView env 1%N origin minusZ frame 0%N = false <->
   (kMaxViewDistance <? viewDistance (THREE.mkVector3 0 0 (-5)) origin)%float
   = true \/
   ((kEpsilon <? viewDistance (THREE.mkVector3 0 0 (-5)) origin)%float = true /\
    (viewCosine (THREE.mkVector3 0 0 (-5)) origin minusZ
       <? kFOVCosThreshold)%float = true)).
Proof.
  intros env frame origin minusZ.
  split; [reflexivity|].
  exact (proj1 (proj1 shouldShowMeshInView_spec env 1%N origin minusZ frame
                  0%N (poseAt 0 0 (-5)) eq_refl)).
Defined.

(** ** The material tables *)

Lemma materialsKnown_initial : materialsKnown initial.
Proof. split; simpl; [intros l m; by rewrite lookup_empty|done]. Qed.

Lemma materialsKnown_init options s :
  materialsKnown s -> materialsKnown (init options s).
Proof.
  intros [Hd Hf]. unfold init.
  destruct (showDebugVisualizations options); [|done].
  split; cbn.
  - intros label m H.
    apply lookup_insert_Some in H as [[<- <-]|[_ H]].
    { split; [elem_of_here|]. exists 0x0000ff%Z. split; [elem_of_here|done]. }
    apply lookup_insert_Some in H as [[<- <-]|[_ H]].
    { split; [elem_of_here|]. exists 0xffff00%Z. split; [elem_of_here|done]. }
    apply lookup_insert_Some in H as [[<- <-]|[_ H]].
    { split; [elem_of_here|]. exists 0x00ff00%Z. split; [elem_of_here|done]. }
    by apply Hd.
  - by intros m [= <-].
Qed.

Lemma materialsKnown_same s s' :
  debugMaterials s' = debugMaterials s ->
  fallbackDebugMaterial s' = fallbackDebugMaterial s ->
  materialsKnown s -> materialsKnown s'.
Proof. unfold materialsKnown. by intros -> ->. Qed.

Lemma updateMeshes_materials env frame s :
  debugMaterials (updateMeshes env frame s) = debugMaterials s /\
  fallbackDebugMaterial (updateMeshes env frame s) = fallbackDebugMaterial s.
Proof.
  apply (updateMeshes_preserves
           (fun s' => debugMaterials s' = debugMaterials s /\
                      fallbackDebugMaterial s' = fallbackDebugMaterial s));
    try done.
  - intros env' frame' rs x s' H _.
    by destruct (sameSettings_add s' env' frame' rs x s') as (-> & -> & _).
  - intros env' frame' rs x m s' H _.
    by destruct (sameSettings_update s' env' frame' rs x m s') as (-> & -> & _).
Qed.

Lemma reachable_materialsKnown s : reachable s -> materialsKnown s.
Proof.
  induction 1 as [|options s _ IH|physics s _ IH|env frame s _ IH].
  - apply materialsKnown_initial.
  - by apply materialsKnown_init.
  - by apply (materialsKnown_same s).
  - destruct (updateMeshes_materials env frame s) as [Hd Hf].
    by apply (materialsKnown_same s).
Qed.

Lemma createMesh_material env frame rs x s :
  exists mesh,
    store (snd (createMesh env frame rs x s)) !! fst (createMesh env frame rs x s)
    = Some mesh /\
    material mesh = chooseMaterial (semanticLabel env x) s.
Proof.
  unfold createMesh, updateMeshPose. cbn [fst snd].
  destruct (getPose _ _ _) as [pose|]; cbn [store withStore].
  - rewrite list_lookup_alter_eq, lookup_app_r by done.
    rewrite Nat.sub_diag. simpl. eauto.
  - rewrite lookup_app_r by done. rewrite Nat.sub_diag. simpl. eauto.
Qed.

(** C7. Material fallback ordering: the mesh object made by [createMesh]
    carries the first defined of the debug material registered for the
    handle's semantic label, the wireframe fallback material and the
    invisible default material; when the label is undefined or not one of
    [SEMANTIC_LABELS] that material is the fallback or the default, and is
    none of the registered label materials. *)
Theorem createMesh_material_order env frame rs xrMesh this :
  reachable this ->
  exists mesh,
    store (snd (createMesh env frame rs xrMesh this))
      !! fst (createMesh env frame rs xrMesh this) = Some mesh /\
    material mesh
    = firstDefined [labelMaterial (semanticLabel env xrMesh) this;
                    fallbackDebugMaterial this] defaultMaterial /\
    ((semanticLabel env xrMesh = None \/
      exists label, semanticLabel env xrMesh = Some label /\
                    label ∉ SEMANTIC_LABELS) ->
     material mesh
     = firstDefined [fallbackDebugMaterial this] defaultMaterial /\
     forall label m, debugMaterials this !! label = Some m -> material mesh <> m).
Proof.
  intros Hreach. apply reachable_materialsKnown in Hreach as [Hd Hf].
  destruct (createMesh_material env frame rs xrMesh this) as (mesh & Hmesh & Hmat).
  exists mesh. split; [done|].
  assert (Hchoose : chooseMaterial (semanticLabel env xrMesh) this
    = firstDefined [labelMaterial (semanticLabel env xrMesh) this;
                    fallbackDebugMaterial this] defaultMaterial).
  { unfold chooseMaterial, labelMaterial.
    destruct (semanticLabel env xrMesh) as [label|]; [|done].
    destruct (decide (label = ""%string)) as [->|Hne]; [|done].
    destruct (debugMaterials this !! ""%string) as [m|] eqn:E; [|done].
    apply Hd in E as [E _]. elem_of_inv E. }
  rewrite Hmat, Hchoose. split; [done|].
  intros Hlabel.
  assert (Hnone : labelMaterial (semanticLabel env xrMesh) this = None).
  { destruct Hlabel as [->|(label & -> & Hout)]; [done|]. simpl.
    destruct (debugMaterials this !! label) as [m|] eqn:E; [|done].
    apply Hd in E as [E _]. done. }
  rewrite Hnone. split; [done|].
  intros label m Hm. apply Hd in Hm as (_ & color & Hcolor & ->).
  cbn [firstDefined].
  destruct (fallbackDebugMaterial this) as [fb|] eqn:Hfb.
  - rewrite (Hf fb eq_refl). intros [= <-]. elem_of_inv Hcolor.
  - done.
Qed.

Lemma createMesh_material_order_witness :
  let this := init (mkOptions true) initial in
  let env := envAt 1000 (Some "table"%string) [] in
  let frame := frameOf [1%N] (fun _ => None) in
  reachable this /\
  exists mesh,
    store (snd (createMesh env frame 0%N 1%N this))
      !! fst (createMesh env frame 0%N 1%N this) = Some mesh /\
    material mesh
    = firstDefined [labelMaterial (semanticLabel env 1%N) this;
                    fallbackDebugMaterial this] defaultMaterial /\
    ((semanticLabel env 1%N = None \/
      exists label, semanticLabel env 1%N = Some label /\
                    label ∉ SEMANTIC_LABELS) ->
     material mesh
     = firstDefined [fallbackDebugMaterial this] defaultMaterial /\
     forall label m, debugMaterials this !! label = Some m -> material mesh <> m).
Proof.
  intros this env frame.
  assert (H : reachable this) by apply reachable_init, reachable_initial.
  split; [exact H|].
  exact (createMesh_material_order env frame 0%N 1%N this H).
Defined.

(** ** The objects of the store through the mutations *)

Lemma lookup_alter_keeps (R : DetectedMesh -> Prop)
    (f : DetectedMesh -> DetectedMesh) m (st : list DetectedMesh) m0 :
  (forall o, R o -> R (f o)) ->
  (exists o, st !! m0 = Some o /\ R o) ->
  exists o, alter f m st !! m0 = Some o /\ R o.
Proof.
  intros Hf (o & Ho & HR). destruct (decide (m0 = m)) as [->|Hne].
  - exists (f o). rewrite list_lookup_alter_eq, Ho. auto.
  - exists o. by rewrite list_lookup_alter_ne.
Qed.

Lemma removeMesh_store_ne x m s m0 :
  m0 <> m -> store (removeMesh x m s) !! m0 = store s !! m0.
Proof. intros Hne. simpl. by rewrite list_lookup_alter_ne. Qed.

Lemma removeMesh_keeps (R : DetectedMesh -> Prop) x m s m0 :
  (forall o, R o -> R (dispose o)) ->
  (exists o, store s !! m0 = Some o /\ R o) ->
  exists o, store (removeMesh x m s) !! m0 = Some o /\ R o.
Proof. intros Hd H. simpl. by apply lookup_alter_keeps. Qed.

Lemma updateExistingMesh_store_ne env frame rs x m s m0 :
  m0 <> m ->
  store (updateExistingMesh env frame rs x m s) !! m0 = store s !! m0.
Proof.
  intros Hne. unfold updateExistingMesh, updateMeshPose.
  destruct (getPose _ _ _); simpl; by rewrite !list_lookup_alter_ne.
Qed.

Lemma updateExistingMesh_keeps (R : DetectedMesh -> Prop) env frame rs x m s m0 :
  (forall o, R o -> R (updateVertices env x o)) ->
  (forall pose o, R o -> R (copyPose pose o)) ->
  (exists o, store s !! m0 = Some o /\ R o) ->
  exists o, store (updateExistingMesh env frame rs x m s) !! m0 = Some o /\ R o.
Proof.
  intros Hv Hp H. unfold updateExistingMesh, updateMeshPose.
  destruct (getPose _ _ _); simpl; repeat apply lookup_alter_keeps; auto.
Qed.

(** Without a pose the update is [updateVertices] alone. *)
Lemma updateExistingMesh_no_pose env frame rs x m s :
  getPose frame (meshSpace env x) rs = None ->
  store (updateExistingMesh env frame rs x m s) !! m
  = updateVertices env x <$> store s !! m.
Proof.
  intros Hpose. unfold updateExistingMesh, updateMeshPose. rewrite Hpose.
  simpl. by rewrite list_lookup_alter_eq.
Qed.

Lemma addNewMesh_store_old env frame rs x s m0 :
  m0 < length (store s) ->
  store (addNewMesh env frame rs x s) !! m0 = store s !! m0.
Proof.
  intros Hlt. unfold addNewMesh, createMesh, updateMeshPose.
  destruct (getPose _ _ _); simpl; destruct (physics s); simpl;
    rewrite ?list_lookup_alter_ne by lia; by rewrite lookup_app_l.
Qed.

(** The object a new mesh starts as. *)
Lemma addNewMesh_store_new env frame rs x s :
  exists o,
    store (addNewMesh env frame rs x s) !! length (store s) = Some o /\
    geometry o = vertices env x /\
    disposed o = false /\
    rapier o = physics s /\
    material o = chooseMaterial (semanticLabel env x) s.
Proof.
  unfold addNewMesh, createMesh, updateMeshPose.
  destruct (getPose _ _ _); simpl; destruct (physics s); simpl;
    rewrite ?list_lookup_alter_eq, lookup_app_r, Nat.sub_diag by done;
    simpl; eauto 10.
Qed.

(** ** A mapped mesh that is shown for want of a pose *)

Lemma shouldShowMeshInView_no_pose env x cp cf frame rs :
  getPose frame (meshSpace env x) rs = None ->
  shouldShowMeshInView env x cp cf frame rs = true.
Proof. intros H. unfold shouldShowMeshInView. by rewrite H. Qed.

Lemma kept_processMesh env frame rs cp cf x m o b b' x' c s :
  getPose frame (meshSpace env x) rs = None ->
  (b' = true -> b = true \/ x' = x) ->
  kept env x m o b s ->
  kept env x m o b' (snd (processMesh env frame rs cp cf x' c s)).
Proof.
  intros Hpose Hb (Hs & Hx & o' & Ho' & Hp & Hq & Hg).
  assert (Hother : forall m', x' <> x ->
            xrMeshToThreeMesh s !! x' = Some m' -> m <> m').
  { intros m' Hne Hx' <-.
    apply (forward_reverse s Hs) in Hx, Hx'. congruence. }
  assert (Halloc : m < length (store s)).
  { eapply reverse_allocated; [done|]. by apply (forward_reverse s Hs). }
  destruct (decide (x' = x)) as [->|Hne].
  - apply processMesh_cases;
      rewrite (shouldShowMeshInView_no_pose env x cp cf frame rs Hpose);
      try done; [congruence|].
    intros _ m' Hm'. assert (m' = m) as -> by congruence.
    split; [by apply consistent_update|].
    rewrite updateExistingMesh_forward. split; [done|].
    exists (updateVertices env x o').
    by rewrite updateExistingMesh_no_pose, Ho'.
  - assert (Hg' : b' = true -> geometry o' = vertices env x).
    { intros Hb'. destruct (Hb Hb') as [?|?]; [auto|done]. }
    apply processMesh_cases.
    + intros _ m' Hm'. split; [by apply consistent_remove|].
      rewrite removeMesh_forward_ne by done. split; [done|].
      exists o'. rewrite removeMesh_store_ne by eauto. done.
    + intros _ _. split; [done|]. split; [done|]. by exists o'.
    + intros _ Hx'. split; [by apply consistent_add|].
      rewrite addNewMesh_forward, lookup_insert_ne by done. split; [done|].
      exists o'. by rewrite addNewMesh_store_old.
    + intros _ m' Hm'. split; [by apply consistent_update|].
      rewrite updateExistingMesh_forward. split; [done|].
      exists o'. rewrite updateExistingMesh_store_ne by eauto. done.
Qed.

Lemma kept_deleteOldMeshes env meshes x m o s :
  x ∈ meshes ->
  kept env x m o false s -> kept env x m o false (deleteOldMeshes meshes s).
Proof.
  intros Hin Hk. apply deleteOldMeshes_ind; [done|].
  intros s' x' m' (Hs & Hx & o' & Ho' & Hrest) Hx' _ Hout.
  assert (x' <> x) as Hne by (by intros ->).
  assert (m <> m') as Hm.
  { intros <-. apply (forward_reverse s' Hs) in Hx, Hx'. congruence. }
  split; [by apply consistent_remove|].
  rewrite removeMesh_forward_ne by done. split; [done|].
  exists o'. by rewrite removeMesh_store_ne.
Qed.

Lemma kept_updateMeshes env frame earlier later rs s x m o :
  consistent s ->
  detectedMeshes frame = Some (earlier ++ x :: later) ->
  throttled env s = false ->
  getReferenceSpace env = Some rs ->
  (shownCount env frame rs (fst (getCameraInfo frame rs))
     (snd (getCameraInfo frame rs)) earlier < MAX_MESHES_PER_FRAME)%Z ->
  xrMeshToThreeMesh s !! x = Some m ->
  store s !! m = Some o ->
  getPose frame (meshSpace env x) rs = None ->
  kept env x m o true (updateMeshes env (Some frame) s).
Proof.
  intros Hs Hfeed Ht Hrs Hcount Hx Ho Hpose.
  rewrite (updateMeshes_eligible env frame _ rs) by done.
  apply (processMeshes_reach (kept env x m o false) (kept env x m o true));
    [lia| |intros; apply (kept_processMesh _ _ _ _ _ _ _ _ false); auto
    |intros; apply (kept_processMesh _ _ _ _ _ _ _ _ false); auto
    |intros; apply (kept_processMesh _ _ _ _ _ _ _ _ true); auto].
  apply kept_deleteOldMeshes.
  { rewrite elem_of_app, elem_of_cons. auto. }
  split; [by apply consistent_time|]. split; [done|]. by exists o.
Qed.

(** C10. A mesh that is already mapped and is processed as visible by an
    eligible call, its pose lookup returning nothing, keeps the position
    and the orientation its object had before the call, while the
    object's geometry is refreshed from the current vertex data.  That
    the loop gets to the mesh is the condition that fewer than
    [MAX_MESHES_PER_FRAME] visible meshes come before it in the feed. *)
Theorem stale_pose_retained env frame earlier later rs this xrMesh threeMesh
    mesh :
  reachable this ->
  detectedMeshes frame = Some (earlier ++ xrMesh :: later) ->
  throttled env this = false ->
  getReferenceSpace env = Some rs ->
  (shownCount env frame rs (fst (getCameraInfo frame rs))
     (snd (getCameraInfo frame rs)) earlier < MAX_MESHES_PER_FRAME)%Z ->
  xrMeshToThreeMesh this !! xrMesh = Some threeMesh ->
  store this !! threeMesh = Some mesh ->
  getPose frame (meshSpace env xrMesh) rs = None ->
  let after := updateMeshes env (Some frame) this in
  xrMeshToThreeMesh after !! xrMesh = Some threeMesh /\
  exists mesh',
    store after !! threeMesh = Some mesh' /\
    position mesh' = position mesh /\
    quaternion mesh' = quaternion mesh /\
    geometry mesh' = geometry (updateVertices env xrMesh mesh) /\
    geometry mesh' = vertices env xrMesh.
Proof.
  intros Hreach Hfeed Ht Hrs Hcount Hx Ho Hpose after.
  apply reachable_consistent in Hreach.
  destruct (kept_updateMeshes env frame earlier later rs this xrMesh threeMesh
              mesh) as (_ & Hx' & mesh' & Ho' & Hp & Hq & Hg); try done.
  split; [done|]. exists mesh'.
  split; [done|]. split; [done|]. split; [done|].
  split; by apply Hg.
Qed.

Lemma stale_pose_retained_witness :
  let env := envAt 2000 None [4; 5]%float in
  let frame := frameOf [7%N] (fun _ => None) in
  let after := updateMeshes env (Some frame) afterPosedTick in
  store afterPosedTick !! 0 = Some posedMesh /\
  xrMeshToThreeMesh after !! 7%N = Some 0 /\
  exists mesh',
    store after !! 0 = Some mesh' /\
    position mesh' = THREE.mkVector3 0 0 (-1) /\
    quaternion mesh' = THREE.mkQuaternion 0 0 0 1 /\
    geometry mesh' = geometry (updateVertices env 7%N posedMesh) /\
    geometry mesh' = [4; 5]%float.
Proof.
  intros env frame after.
  split; [vm_compute; reflexivity|].
  apply (stale_pose_retained env frame [] [] 0%N afterPosedTick 7%N 0
           posedMesh).
  - apply reachable_updateMeshes, reachable_initial.
  - reflexivity.
  - vm_compute. reflexivity.
  - reflexivity.
  - vm_compute. reflexivity.
  - vm_compute. reflexivity.
  - vm_compute. reflexivity.
  - reflexivity.
Defined.

(** ** Meshes shown for want of a pose *)

Lemma consistent_processMesh env frame rs cp cf x c s :
  consistent s -> consistent (snd (processMesh env frame rs cp cf x c s)).
Proof.
  intros Hs. apply processMesh_cases;
    eauto using consistent_remove, consistent_add, consistent_update.
Qed.

Lemma consistent_deleteOldMeshes meshes s :
  consistent s -> consistent (deleteOldMeshes meshes s).
Proof.
  apply deleteOldMeshes_preserves. eauto using consistent_remove.
Qed.

Lemma kept_fresh env frame rs cp cf x c s :
  consistent s ->
  getPose frame (meshSpace env x) rs = None ->
  exists m o, kept env x m o true (snd (processMesh env frame rs cp cf x c s)).
Proof.
  intros Hs Hpose.
  destruct (xrMeshToThreeMesh s !! x) as [m|] eqn:Hx.
  - pose proof (forward_reverse s Hs _ _ Hx) as Hm.
    apply (reverse_allocated s Hs) in Hm.
    destruct (lookup_lt_is_Some_2 (store s) m Hm) as [o Ho].
    exists m, o. apply (kept_processMesh _ _ _ _ _ _ _ _ false); auto.
    split; [done|]. split; [done|]. by exists o.
  - destruct (addNewMesh_store_new env frame rs x s)
      as (o & Ho & Hg & _).
    exists (length (store s)), o.
    unfold processMesh.
    rewrite (shouldShowMeshInView_no_pose env x cp cf frame rs Hpose), Hx.
    cbn [negb snd].
    split; [by apply consistent_add|].
    rewrite addNewMesh_forward, lookup_insert_eq. split; [done|].
    by exists o.
Qed.

(** C6, as the code has it.  Fail-open on a missing pose: a mesh of the
    feed whose pose lookup returns nothing passes [shouldShowMeshInView]
    whatever the camera, and, provided fewer than [MAX_MESHES_PER_FRAME]
    visible meshes come before it in the feed, is mapped after an
    eligible call: to the object it was mapped to before, its geometry
    refreshed, or else to a newly created object. *)
Theorem missing_pose_mapped env frame earlier later rs this xrMesh :
  reachable this ->
  detectedMeshes frame = Some (earlier ++ xrMesh :: later) ->
  throttled env this = false ->
  getReferenceSpace env = Some rs ->
  (shownCount env frame rs (fst (getCameraInfo frame rs))
     (snd (getCameraInfo frame rs)) earlier < MAX_MESHES_PER_FRAME)%Z ->
  getPose frame (meshSpace env xrMesh) rs = None ->
  (forall cameraPosition cameraForward,
     shouldShowMeshInView env xrMesh cameraPosition cameraForward frame rs
     = true) /\
  let after := updateMeshes env (Some frame) this in
  exists threeMesh mesh,
    xrMeshToThreeMesh after !! xrMesh = Some threeMesh /\
    threeMeshToXrMesh after !! threeMesh = Some xrMesh /\
    threeMesh ∈ children after /\
    store after !! threeMesh = Some mesh /\
    disposed mesh = false /\
    geometry mesh = vertices env xrMesh /\
    match xrMeshToThreeMesh this !! xrMesh with
    | Some old => threeMesh = old
    | None => length (store this) <= threeMesh
    end.
Proof.
  intros Hreach Hfeed Ht Hrs Hcount Hpose.
  apply reachable_consistent in Hreach.
  split; [intros; by apply shouldShowMeshInView_no_pose|].
  intros after.
  assert (Hkept : exists m o, kept env xrMesh m o true after /\
            match xrMeshToThreeMesh this !! xrMesh with
            | Some old => m = old
            | None => True
            end).
  { destruct (xrMeshToThreeMesh this !! xrMesh) as [old|] eqn:Hx.
    - pose proof (forward_reverse this Hreach _ _ Hx) as Hm.
      apply (reverse_allocated this Hreach) in Hm.
      destruct (lookup_lt_is_Some_2 (store this) old Hm) as [o Ho].
      exists old, o. split; [|done].
      by apply (kept_updateMeshes env frame earlier later rs).
    - cut (exists m o, kept env xrMesh m o true after).
      { intros (m & o & H). by exists m, o. }
      unfold after. rewrite (updateMeshes_eligible env frame _ rs) by done.
      apply (processMeshes_reach consistent
               (fun s => exists m o, kept env xrMesh m o true s)); [lia|..].
      + by apply consistent_deleteOldMeshes, consistent_time.
      + intros. by apply consistent_processMesh.
      + intros. by apply kept_fresh.
      + intros s' x' c' (m & o & H) _. exists m, o.
        apply (kept_processMesh _ _ _ _ _ _ _ _ true); auto. }
  destruct Hkept as (m & o & (Hs & Hx & o' & Ho' & _ & _ & Hg) & Hold).
  destruct (mapped_live after xrMesh m Hs Hx) as (Hrev & (o'' & Ho'' & Hd) & Hc).
  assert (o'' = o') as -> by congruence.
  exists m, o'. repeat (split; [by auto|]).
  destruct (xrMeshToThreeMesh this !! xrMesh) as [old|] eqn:Hthis; [done|].
  destruct (updateMeshes_extends env (Some frame) this) as [_ Hext].
  destruct (decide (m < length (store this))) as [Hlt|]; [|lia].
  apply (Hext _ _ Hx) in Hlt. congruence.
Qed.

Lemma missing_pose_mapped_witness :
  let env := envAt 2000 None [4; 5]%float in
  let frame := frameOf [7%N; 8%N] (fun _ => None) in
  let after := updateMeshes env (Some frame) afterPosedTick in
  xrMeshToThreeMesh afterPosedTick !! 8%N = None /\
  length (store afterPosedTick) = 1 /\
  exists threeMesh mesh,
    xrMeshToThreeMesh after !! 8%N = Some threeMesh /\
    threeMeshToXrMesh after !! threeMesh = Some 8%N /\
    threeMesh ∈ children after /\
    store after !! threeMesh = Some mesh /\
    disposed mesh = false /\
    geometry mesh = [4; 5]%float /\
    1 <= threeMesh.
Proof.
  intros env frame after.
  split; [vm_compute; reflexivity|]. split; [vm_compute; reflexivity|].
  assert (H : reachable afterPosedTick)
    by apply reachable_updateMeshes, reachable_initial.
  assert (H1 : throttled env afterPosedTick = false) by (vm_compute; reflexivity).
  assert (H2 : (shownCount env frame 0%N (fst (getCameraInfo frame 0%N))
                  (snd (getCameraInfo frame 0%N)) [7%N]
                < MAX_MESHES_PER_FRAME)%Z) by (vm_compute; reflexivity).
  exact (proj2 (missing_pose_mapped env frame [7%N] [] 0%N afterPosedTick 8%N
                  H eq_refl H1 eq_refl H2 eq_refl)).
Defined.

(** ** A feed longer than the cap *)

Lemma length_countUp count from : length (countUp count from) = count.
Proof.
  revert from. induction count as [|count IH]; intros from; simpl; [done|].
  by rewrite IH.
Qed.

Lemma elem_of_countUp count from x :
  x ∈ countUp count from -> (from <= x < from + N.of_nat count)%N.
Proof.
  revert from. induction count as [|count IH]; intros from; simpl.
  - by intros ?%elem_of_nil.
  - intros [->|Hin%IH]%elem_of_cons; lia.
Qed.

Lemma shownCount_all env frame rs cp cf meshes :
  (forall x, x ∈ meshes -> shouldShowMeshInView env x cp cf frame rs = true) ->
  shownCount env frame rs cp cf meshes = Z.of_nat (length meshes).
Proof.
  induction meshes as [|x meshes IH]; intros Hall; [done|].
  rewrite shownCount_cons, Hall by left.
  rewrite IH by (intros x' Hin; apply Hall; by right).
  cbn [length]. lia.
Qed.

Lemma NoDup_countUp count from : NoDup (countUp count from).
Proof.
  revert from. induction count as [|count IH]; intros from; simpl.
  - apply NoDup_nil_2.
  - apply NoDup_cons. split; [|apply IH].
    intros Hin%elem_of_countUp. lia.
Qed.

Lemma crowdedFeed_last : 100000%N ∈ crowdedFeed.
Proof. unfold crowdedFeed. rewrite elem_of_app, list_elem_of_singleton. auto. Qed.

Lemma crowdedFeed_earlier x :
  x ∈ countUp (Z.to_nat MAX_MESHES_PER_FRAME) 0 -> x <> 100000%N.
Proof.
  intros Hin%elem_of_countUp. unfold MAX_MESHES_PER_FRAME in Hin. lia.
Qed.

(** The crowded feed reports no mesh twice. *)
Lemma crowdedFeed_NoDup : NoDup crowdedFeed.
Proof.
  unfold crowdedFeed. apply NoDup_app.
  split; [apply NoDup_countUp|]. split; [|apply NoDup_singleton].
  intros x Hin ->%list_elem_of_singleton. by apply crowdedFeed_earlier in Hin.
Qed.

(** With the crowded feed the loop stops before the last mesh whenever
    the meshes before it are all shown. *)
Lemma crowdedFeed_capped env frame rs cp cf s :
  (forall x, x <> 100000%N -> shouldShowMeshInView env x cp cf frame rs = true) ->
  processMeshes env frame rs cp cf crowdedFeed 0 s
  = processMeshes env frame rs cp cf
      (countUp (Z.to_nat MAX_MESHES_PER_FRAME) 0) 0 s.
Proof.
  intros Hshown. unfold crowdedFeed. apply processMeshes_capped.
  rewrite shownCount_all, length_countUp.
  - unfold MAX_MESHES_PER_FRAME. lia.
  - intros x Hin. by apply Hshown, crowdedFeed_earlier.
Qed.

Lemma crowdedFeed_untouched env frame rs cp cf s :
  xrMeshToThreeMesh
    (snd (processMeshes env frame rs cp cf
            (countUp (Z.to_nat MAX_MESHES_PER_FRAME) 0) 0 s)) !! 100000%N
  = xrMeshToThreeMesh s !! 100000%N.
Proof.
  apply (processMeshes_ind
           (fun s' => xrMeshToThreeMesh s' !! 100000%N
                      = xrMeshToThreeMesh s !! 100000%N)); [done|].
  intros s' x c' Hs' Hin. rewrite processMesh_forward.
  rewrite decide_False; [done|]. intros <-. by apply crowdedFeed_earlier in Hin.
Qed.

(** C6, as it is stated, fails past the cap: with 100000 meshes shown
    before it, the mesh 100000 of the crowded feed, which has no pose, is
    not mapped by an eligible call. *)
Lemma missing_pose_unmapped_past_cap :
  let env := envAt 1000 None [] in
  let frame := frameOf crowdedFeed (fun _ => None) in
  let after := updateMeshes env (Some frame) initial in
  reachable initial /\
  detectedMeshes frame = Some crowdedFeed /\
  NoDup crowdedFeed /\
  100000%N ∈ crowdedFeed /\
  throttled env initial = false /\
  getReferenceSpace env = Some 0%N /\
  getPose frame (meshSpace env 100000%N) 0%N = None /\
  xrMeshToThreeMesh after !! 100000%N = None.
Proof.
  intros env frame after.
  assert (Ht : throttled env initial = false) by (vm_compute; reflexivity).
  split; [apply reachable_initial|]. split; [reflexivity|].
  split; [apply crowdedFeed_NoDup|].
  split; [apply crowdedFeed_last|]. split; [exact Ht|].
  split; [reflexivity|]. split; [reflexivity|].
  unfold after.
  rewrite (updateMeshes_eligible env frame crowdedFeed 0%N) by done.
  rewrite crowdedFeed_capped
    by (intros; by apply shouldShowMeshInView_no_pose).
  rewrite crowdedFeed_untouched, deleteOldMeshes_forward.
  by case_bool_decide.
Qed.

(** ** Culling and re-creation *)

Lemma shouldShowMeshInView_far env x cp cf frame rs pose :
  getPose frame (meshSpace env x) rs = Some pose ->
  (kMaxViewDistance
     <? viewDistance
          (THREE.setFromMatrixPosition (THREE.fromArray (matrix (transform pose))))
          cp)%float = true ->
  shouldShowMeshInView env x cp cf frame rs = false.
Proof. intros Hpose Hfar. unfold shouldShowMeshInView. by rewrite Hpose, Hfar. Qed.

(** A mesh reached by the loop is unmapped afterwards when it is not
    shown, and mapped when it is. *)
Lemma reached_forward env frame earlier later rs s x :
  detectedMeshes frame = Some (earlier ++ x :: later) ->
  throttled env s = false ->
  getReferenceSpace env = Some rs ->
  (shownCount env frame rs (fst (getCameraInfo frame rs))
     (snd (getCameraInfo frame rs)) earlier < MAX_MESHES_PER_FRAME)%Z ->
  if shown env frame rs x
  then is_Some (xrMeshToThreeMesh (updateMeshes env (Some frame) s) !! x)
  else xrMeshToThreeMesh (updateMeshes env (Some frame) s) !! x = None.
Proof.
  intros Hfeed Ht Hrs Hcount.
  rewrite (updateMeshes_eligible env frame _ rs) by done.
  unfold shown.
  set (cp := fst (getCameraInfo frame rs)) in *.
  set (cf := snd (getCameraInfo frame rs)) in *.
  destruct (shouldShowMeshInView env x cp cf frame rs) eqn:Hshow.
  - apply (processMeshes_reach (fun _ => True)
             (fun s' => is_Some (xrMeshToThreeMesh s' !! x))); [lia|done..| |].
    + intros s' c' _. rewrite processMesh_forward, decide_True, Hshow by done.
      eauto.
    + intros s' x' c' Hs' _. rewrite processMesh_forward.
      destruct (decide (x = x')) as [<-|Hne]; [|done].
      rewrite Hshow. eauto.
  - apply (processMeshes_reach (fun _ => True)
             (fun s' => xrMeshToThreeMesh s' !! x = None)); [lia|done..| |].
    + intros s' c' _. by rewrite processMesh_forward, decide_True, Hshow.
    + intros s' x' c' Hs' _. rewrite processMesh_forward.
      destruct (decide (x = x')) as [<-|Hne]; [|done]. by rewrite Hshow.
Qed.

(** C5, as the code has it.  Culling reversibility, for a mesh of the
    feed that fewer than [MAX_MESHES_PER_FRAME] visible meshes precede.
    A mapped mesh whose pose lies beyond [kMaxViewDistance] on an
    eligible call loses both mapping entries, its object is disposed of
    and leaves the scene.  A mesh that is not mapped and passes the
    visibility test on an eligible call is mapped afterwards, in both
    directions, to a newly created object that is attached to the scene. *)
Theorem culling_reversible :
  (forall env frame earlier later rs this xrMesh threeMesh meshPose,
     reachable this ->
     detectedMeshes frame = Some (earlier ++ xrMesh :: later) ->
     throttled env this = false ->
     getReferenceSpace env = Some rs ->
     (shownCount env frame rs (fst (getCameraInfo frame rs))
        (snd (getCameraInfo frame rs)) earlier < MAX_MESHES_PER_FRAME)%Z ->
     xrMeshToThreeMesh this !! xrMesh = Some threeMesh ->
     getPose frame (meshSpace env xrMesh) rs = Some meshPose ->
     (kMaxViewDistance
        <? viewDistance
             (THREE.setFromMatrixPosition
                (THREE.fromArray (matrix (transform meshPose))))
             (fst (getCameraInfo frame rs)))%float = true ->
     let after := updateMeshes env (Some frame) this in
     xrMeshToThreeMesh after !! xrMesh = None /\
     threeMeshToXrMesh after !! threeMesh = None /\
     (exists mesh, store after !! threeMesh = Some mesh /\ disposed mesh = true) /\
     threeMesh ∉ children after) /\
  (forall env frame earlier later rs this xrMesh,
     reachable this ->
     detectedMeshes frame = Some (earlier ++ xrMesh :: later) ->
     throttled env this = false ->
     getReferenceSpace env = Some rs ->
     (shownCount env frame rs (fst (getCameraInfo frame rs))
        (snd (getCameraInfo frame rs)) earlier < MAX_MESHES_PER_FRAME)%Z ->
     xrMeshToThreeMesh this !! xrMesh = None ->
     shown env frame rs xrMesh = true ->
     let after := updateMeshes env (Some frame) this in
     exists threeMesh,
       length (store this) <= threeMesh /\
       xrMeshToThreeMesh after !! xrMesh = Some threeMesh /\
       threeMeshToXrMesh after !! threeMesh = Some xrMesh /\
       (exists mesh, store after !! threeMesh = Some mesh /\
                     disposed mesh = false) /\
       threeMesh ∈ children after).
Proof.
  split.
  - intros env frame earlier later rs this x m pose Hreach Hfeed Ht Hrs
           Hcount Hx Hpose Hfar after.
    apply reachable_consistent in Hreach.
    pose proof (reached_forward env frame earlier later rs this x
                  Hfeed Ht Hrs Hcount) as Hgone.
    unfold shown in Hgone.
    rewrite (shouldShowMeshInView_far env x _ _ frame rs pose Hpose Hfar)
      in Hgone.
    split; [done|].
    apply (released_after this after x m); try done.
    + by apply consistent_updateMeshes.
    + apply updateMeshes_extends.
  - intros env frame earlier later rs this x Hreach Hfeed Ht Hrs Hcount Hx
           Hshown after.
    apply reachable_consistent in Hreach.
    pose proof (reached_forward env frame earlier later rs this x
                  Hfeed Ht Hrs Hcount) as Hmapped.
    rewrite Hshown in Hmapped. destruct Hmapped as [m Hm].
    exists m.
    destruct (mapped_live after x m) as (Hrev & Hlive & Hc);
      [by apply consistent_updateMeshes|done|].
    split; [|done].
    destruct (updateMeshes_extends env (Some frame) this) as [_ Hext].
    destruct (decide (m < length (store this))) as [Hlt|]; [|lia].
    apply (Hext _ _ Hm) in Hlt. congruence.
Qed.

Lemma culling_reversible_witness :
  let env2 := envAt 2000 None [] in
  let frame2 := frameOf [7%N] (fun _ => Some (poseAt 0 0 (-5))) in
  let culled := updateMeshes env2 (Some frame2) afterFirstTick in
  let env3 := envAt 3000 None [] in
  let frame3 := frameOf [7%N] (fun _ => Some (poseAt 0 0 (-1))) in
  let after := updateMeshes env3 (Some frame3) culled in
  xrMeshToThreeMesh afterFirstTick !! 7%N = Some 0 /\
  (xrMeshToThreeMesh culled !! 7%N = None /\
   threeMeshToXrMesh culled !! 0 = None /\
   (exists mesh, store culled !! 0 = Some mesh /\ disposed mesh = true) /\
   0 ∉ children culled) /\
  length (store culled) = 1 /\
  exists threeMesh,
    length (store culled) <= threeMesh /\
    xrMeshToThreeMesh after !! 7%N = Some threeMesh /\
    threeMeshToXrMesh after !! threeMesh = Some 7%N /\
    (exists mesh, store after !! threeMesh = Some mesh /\
                  disposed mesh = false) /\
    threeMesh ∈ children after.
Proof.
  intros env2 frame2 culled env3 frame3 after.
  assert (H1 : reachable afterFirstTick)
    by apply reachable_updateMeshes, reachable_initial.
  assert (H2 : reachable culled) by by apply reachable_updateMeshes.
  split; [vm_compute; reflexivity|]. split; [|split].
  - apply (proj1 culling_reversible env2 frame2 [] [] 0%N afterFirstTick 7%N 0
             (poseAt 0 0 (-5)) H1);
      first [reflexivity | vm_compute; reflexivity].
  - vm_compute. reflexivity.
  - apply (proj2 culling_reversible env3 frame3 [] [] 0%N culled 7%N H2);
      first [reflexivity | vm_compute; reflexivity].
Defined.

(** C5, as it is stated, fails past the cap: the mesh 100000 is mapped,
    is in the crowded feed and is posed five units away, beyond
    [kMaxViewDistance]; 100000 visible meshes come before it, and the
    eligible call leaves it mapped. *)
Lemma culling_skipped_past_cap :
  let env := envAt 2000 None [] in
  let frame := frameOf crowdedFeed farPoses in
  let after := updateMeshes env (Some frame) afterLoneTick in
  reachable afterLoneTick /\
  xrMeshToThreeMesh afterLoneTick !! 100000%N = Some 0 /\
  detectedMeshes frame = Some crowdedFeed /\
  NoDup crowdedFeed /\
  100000%N ∈ crowdedFeed /\
  throttled env afterLoneTick = false /\
  getReferenceSpace env = Some 0%N /\
  getPose frame (meshSpace env 100000%N) 0%N = Some (poseAt 0 0 (-5)) /\
  (kMaxViewDistance
     <? viewDistance (THREE.mkVector3 0 0 (-5))
          (THREE.mkVector3 0 0 0))%float = true /\
  fst (getCameraInfo frame 0%N) = THREE.mkVector3 0 0 0 /\
  xrMeshToThreeMesh after !! 100000%N = Some 0.
Proof.
  intros env frame after.
  assert (Ht : throttled env afterLoneTick = false) by (vm_compute; reflexivity).
  assert (Hx : xrMeshToThreeMesh afterLoneTick !! 100000%N = Some 0)
    by (vm_compute; reflexivity).
  split; [apply reachable_updateMeshes, reachable_initial|].
  split; [exact Hx|]. split; [reflexivity|].
  split; [apply crowdedFeed_NoDup|].
  split; [apply crowdedFeed_last|]. split; [exact Ht|].
  split; [reflexivity|]. split; [reflexivity|].
  split; [vm_compute; reflexivity|]. split; [reflexivity|].
  unfold after.
  rewrite (updateMeshes_eligible env frame crowdedFeed 0%N) by done.
  rewrite crowdedFeed_capped.
  - rewrite crowdedFeed_untouched, deleteOldMeshes_forward.
    rewrite bool_decide_eq_true_2 by apply crowdedFeed_last. exact Hx.
  - intros x Hne. apply shouldShowMeshInView_no_pose.
    cbn. unfold farPoses. by rewrite (proj2 (N.eqb_neq x 100000)).
Qed.

(** ** Physics registration *)

Lemma initPhysics_store registrar s x m :
  xrMeshToThreeMesh s !! x = Some m ->
  m < length (store s) ->
  exists o, store (initPhysics registrar s) !! m = Some o /\
            rapier o = Some registrar.
Proof.
  intros Hx Hm. cbn [initPhysics store].
  apply elem_of_map_to_list in Hx. revert Hx Hm.
  generalize (map_to_list (xrMeshToThreeMesh s)) as l.
  generalize (store s) as st.
  assert (Hkeeps : forall (l : list (N * nat)) (st : list DetectedMesh),
    (exists o, st !! m = Some o /\ rapier o = Some registrar) ->
    exists o,
      foldl (fun st '(_, mesh) => alter (initRapierPhysics registrar) mesh st)
            st l !! m = Some o /\ rapier o = Some registrar).
  { induction l as [|[x' m'] l IH]; intros st H; simpl; [done|].
    apply IH.
    by apply (lookup_alter_keeps (fun o => rapier o = Some registrar)). }
  intros st l. revert st.
  induction l as [|[x' m'] l IH]; intros st Hin Hm; simpl.
  - by apply elem_of_nil in Hin.
  - apply elem_of_cons in Hin as [[= <- <-]|Hin].
    + apply Hkeeps.
      destruct (lookup_lt_is_Some_2 st m Hm) as [o Ho].
      exists (initRapierPhysics registrar o).
      by rewrite list_lookup_alter_eq, Ho.
    + apply IH; [done|]. by rewrite length_alter.
Qed.

Lemma updateMeshes_newRegistered registrar env frame s :
  physics s = Some registrar ->
  newRegistered registrar s (updateMeshes env frame s).
Proof.
  intros Hp. apply (updateMeshes_preserves (newRegistered registrar s)).
  - intros now s' H. exact H.
  - intros x m s' [Hp' Hnew] _. split; [done|].
    intros m0 Hge Hlt. cbn [removeMesh store] in *.
    rewrite length_alter in Hlt.
    apply (lookup_alter_keeps (fun o => rapier o = Some registrar)); auto.
  - intros env' frame' rs x s' [Hp' Hnew] _. split.
    + by destruct (sameSettings_add s' env' frame' rs x s') as (_ & _ & -> & _).
    + intros m0 Hge Hlt. rewrite addNewMesh_length in Hlt.
      destruct (decide (m0 = length (store s'))) as [->|Hne].
      * destruct (addNewMesh_store_new env' frame' rs x s')
          as (o & Ho & _ & _ & Hr & _).
        exists o. split; [done|]. congruence.
      * rewrite addNewMesh_store_old by lia. apply Hnew; lia.
  - intros env' frame' rs x m s' [Hp' Hnew] _. split.
    + by destruct (sameSettings_update s' env' frame' rs x m s')
        as (_ & _ & -> & _).
    + intros m0 Hge Hlt. rewrite updateExistingMesh_length in Hlt.
      apply (updateExistingMesh_keeps (fun o => rapier o = Some registrar));
        auto.
  - split; [done|]. intros m Hge Hlt. lia.
Qed.

(** C8. Physics late binding: [initPhysics] registers the physics
    representation of every mesh that is mapped at the time of the call;
    and while a registrar is attached, every object a call of
    [updateMeshes] creates, hence every mesh it newly maps, has its
    physics representation registered, by the very step that creates it. *)
Theorem physics_backfill :
  (forall registrar this,
     reachable this ->
     let after := initPhysics registrar this in
     physics after = Some registrar /\
     xrMeshToThreeMesh after = xrMeshToThreeMesh this /\
     forall xrMesh threeMesh,
       xrMeshToThreeMesh this !! xrMesh = Some threeMesh ->
       exists mesh, store after !! threeMesh = Some mesh /\
                    rapier mesh = Some registrar) /\
  (forall env frame registrar this,
     reachable this ->
     physics this = Some registrar ->
     let after := updateMeshes env frame this in
     (forall threeMesh,
        length (store this) <= threeMesh < length (store after) ->
        exists mesh, store after !! threeMesh = Some mesh /\
                     rapier mesh = Some registrar) /\
     (forall xrMesh threeMesh,
        xrMeshToThreeMesh after !! xrMesh = Some threeMesh ->
        xrMeshToThreeMesh this !! xrMesh <> Some threeMesh ->
        exists mesh, store after !! threeMesh = Some mesh /\
                     rapier mesh = Some registrar)) /\
  (forall env frame rs xrMesh registrar this,
     physics this = Some registrar ->
     exists mesh,
       store (addNewMesh env frame rs xrMesh this) !! length (store this)
       = Some mesh /\
       rapier mesh = Some registrar).
Proof.
  split; [|split].
  - intros registrar this Hreach after.
    apply reachable_consistent in Hreach.
    split; [done|]. split; [done|].
    intros x m Hx. apply (initPhysics_store registrar this x m Hx).
    eapply reverse_allocated; [done|]. by apply (forward_reverse this Hreach).
  - intros env frame registrar this Hreach Hp after.
    apply reachable_consistent in Hreach.
    destruct (updateMeshes_newRegistered registrar env frame this Hp)
      as [_ Hnew].
    split; [intros m [Hge Hlt]; by apply Hnew|].
    intros x m Hx Hne.
    destruct (updateMeshes_extends env frame this) as [_ Hext].
    pose proof (consistent_updateMeshes env frame this Hreach) as Hafter.
    apply Hnew.
    + destruct (decide (m < length (store this))) as [Hlt|]; [|lia].
      by apply (Hext _ _ Hx) in Hlt.
    + eapply reverse_allocated; [done|]. by apply (forward_reverse _ Hafter).
  - intros env frame rs x registrar this Hp.
    destruct (addNewMesh_store_new env frame rs x this)
      as (o & Ho & _ & _ & Hr & _).
    exists o. split; [done|]. congruence.
Qed.

Lemma physics_backfill_witness :
  let registrar := mkPhysics 1 2 in
  let attached := initPhysics registrar afterFirstTick in
  let env := envAt 2000 None [] in
  let frame := frameOf [7%N; 8%N] (fun _ => None) in
  let after := updateMeshes env (Some frame) attached in
  xrMeshToThreeMesh afterFirstTick !! 7%N = Some 0 /\
  (exists mesh, store attached !! 0 = Some mesh /\
                rapier mesh = Some registrar) /\
  xrMeshToThreeMesh after !! 8%N = Some 1 /\
  xrMeshToThreeMesh attached !! 8%N <> Some 1 /\
  (exists mesh, store after !! 1 = Some mesh /\ rapier mesh = Some registrar).
Proof.
  intros registrar attached env frame after.
  assert (H1 : reachable afterFirstTick)
    by apply reachable_updateMeshes, reachable_initial.
  assert (H2 : reachable attached) by by apply reachable_initPhysics.
  assert (H3 : xrMeshToThreeMesh afterFirstTick !! 7%N = Some 0)
    by (vm_compute; reflexivity).
  assert (H4 : xrMeshToThreeMesh after !! 8%N = Some 1)
    by (vm_compute; reflexivity).
  assert (H5 : xrMeshToThreeMesh attached !! 8%N <> Some 1)
    by (vm_compute; discriminate).
  split; [exact H3|]. split; [|split; [exact H4|split; [exact H5|]]].
  - exact (proj2 (proj2 (proj1 physics_backfill registrar afterFirstTick H1))
             7%N 0 H3).
  - exact (proj2 (proj1 (proj2 physics_backfill) env (Some frame) registrar
                    attached H2 eq_refl) 8%N 1 H4 H5).
Defined.

(** * Further properties of the detector *)

(** ** Invariants of the scene and of the object store *)

Lemma reachableFrom_reachable from this :
  reachable from -> reachableFrom from this -> reachable this.
Proof.
  intros Hfrom. induction 1; auto using reachable_init,
    reachable_initPhysics, reachable_updateMeshes.
Qed.

Lemma forward_values_NoDup s :
  consistent s -> NoDup (map_to_list (xrMeshToThreeMesh s)).*2.
Proof.
  intros Hs. apply NoDup_fmap_2_strong; [|apply NoDup_map_to_list].
  intros [x1 m1] [x2 m2] H1%elem_of_map_to_list H2%elem_of_map_to_list.
  simpl. intros <-. f_equal.
  apply (forward_reverse s Hs) in H1, H2. congruence.
Qed.

(** X1. The scene mirrors the mapping: in every reachable state the
    children of the script hold no mesh twice, a mesh is a child exactly
    when some handle is mapped to it, and there are as many children as
    entries in either map. *)
Theorem scene_mirrors_mapping (this : MeshDetector) :
  reachable this ->
  NoDup (children this) /\
  (forall threeMesh,
     threeMesh ∈ children this <->
     exists xrMesh, xrMeshToThreeMesh this !! xrMesh = Some threeMesh) /\
  length (children this) = size (xrMeshToThreeMesh this) /\
  size (threeMeshToXrMesh this) = size (xrMeshToThreeMesh this).
Proof.
  intros Hs%reachable_consistent.
  assert (Hattached : forall m,
            m ∈ children this <-> exists x, xrMeshToThreeMesh this !! x = Some m).
  { intros m. rewrite (attached_mapped this Hs). split.
    - intros [x Hx]. exists x. by apply (reverse_forward this Hs).
    - intros [x Hx]. exists x. by apply (forward_reverse this Hs). }
  split; [apply (children_NoDup this Hs)|]. split; [exact Hattached|].
  assert (Hperm : children this ≡ₚ (map_to_list (xrMeshToThreeMesh this)).*2).
  { apply NoDup_Permutation;
      [apply (children_NoDup this Hs)|by apply forward_values_NoDup|].
    intros m. rewrite Hattached, list_elem_of_fmap. split.
    - intros [x Hx]. exists (x, m). split; [done|].
      by apply elem_of_map_to_list.
    - intros ([x m'] & -> & Hin). exists x. by apply elem_of_map_to_list. }
  assert (Hperm' : (map_to_list (threeMeshToXrMesh this)).*1
                   ≡ₚ (map_to_list (xrMeshToThreeMesh this)).*2).
  { apply NoDup_Permutation;
      [apply NoDup_fst_map_to_list|by apply forward_values_NoDup|].
    intros m. rewrite !list_elem_of_fmap. split.
    - intros ([m' x] & -> & Hin%elem_of_map_to_list). exists (x, m').
      split; [done|]. by apply elem_of_map_to_list, (reverse_forward this Hs).
    - intros ([x m'] & -> & Hin%elem_of_map_to_list). exists (m', x).
      split; [done|]. by apply elem_of_map_to_list, (forward_reverse this Hs). }
  split.
  - rewrite Hperm, length_fmap. apply length_map_to_list.
  - rewrite <- !length_map_to_list.
    rewrite <- (length_fmap fst (map_to_list (threeMeshToXrMesh this))).
    by rewrite Hperm', length_fmap.
Qed.

Lemma scene_mirrors_mapping_witness :
  children afterFirstTick = [0] /\
  NoDup (children afterFirstTick) /\
  (forall threeMesh,
     threeMesh ∈ children afterFirstTick <->
     exists xrMesh, xrMeshToThreeMesh afterFirstTick !! xrMesh = Some threeMesh) /\
  length (children afterFirstTick) = size (xrMeshToThreeMesh afterFirstTick) /\
  size (threeMeshToXrMesh afterFirstTick)
  = size (xrMeshToThreeMesh afterFirstTick).
Proof.
  split; [vm_compute; reflexivity|].
  apply scene_mirrors_mapping.
  apply reachable_updateMeshes, reachable_initial.
Defined.

(** X2. No mapped mesh is disposed of and no unmapped one is kept alive:
    in every reachable state a handle is mapped to an allocated object
    that has not been disposed of, and every object of the store that no
    handle is mapped to has been disposed of. *)
Theorem disposed_exactly_when_unmapped (this : MeshDetector) :
  reachable this ->
  (forall xrMesh threeMesh,
     xrMeshToThreeMesh this !! xrMesh = Some threeMesh ->
     exists mesh, store this !! threeMesh = Some mesh /\
                  disposed mesh = false) /\
  (forall threeMesh mesh,
     store this !! threeMesh = Some mesh ->
     (forall xrMesh, xrMeshToThreeMesh this !! xrMesh <> Some threeMesh) ->
     disposed mesh = true).
Proof.
  intros Hs%reachable_consistent. split.
  - intros x m Hx. by destruct (mapped_live this x m Hs Hx) as (_ & H & _).
  - intros m o Ho Hnone. apply (disposed_unmapped this Hs m o Ho).
    destruct (threeMeshToXrMesh this !! m) as [x|] eqn:E; [|done].
    apply (reverse_forward this Hs) in E. by apply Hnone in E.
Qed.

Lemma disposed_exactly_when_unmapped_witness :
  let culled :=
    updateMeshes (envAt 2000 None []) (Some (frameOf [] (fun _ => None)))
      afterFirstTick in
  length (store culled) = 1 /\
  xrMeshToThreeMesh culled = ∅ /\
  (forall xrMesh threeMesh,
     xrMeshToThreeMesh culled !! xrMesh = Some threeMesh ->
     exists mesh, store culled !! threeMesh = Some mesh /\
                  disposed mesh = false) /\
  (forall threeMesh mesh,
     store culled !! threeMesh = Some mesh ->
     (forall xrMesh, xrMeshToThreeMesh culled !! xrMesh <> Some threeMesh) ->
     disposed mesh = true).
Proof.
  intros culled.
  split; [vm_compute; reflexivity|]. split; [vm_compute; reflexivity|].
  apply disposed_exactly_when_unmapped.
  apply reachable_updateMeshes, reachable_updateMeshes, reachable_initial.
Defined.

(** ** What later calls leave alone *)

Lemma initPhysics_store_cases registrar s m :
  store (initPhysics registrar s) !! m
  = if bool_decide (m ∈ (map_to_list (xrMeshToThreeMesh s)).*2)
    then initRapierPhysics registrar <$> store s !! m
    else store s !! m.
Proof.
  cbn [initPhysics store].
  generalize (map_to_list (xrMeshToThreeMesh s)) as l.
  generalize (store s) as st. intros st l. revert st.
  induction l as [|[x m'] l IH]; intros st; simpl; [done|].
  rewrite IH. destruct (decide (m = m')) as [<-|Hne].
  - rewrite list_lookup_alter_eq.
    rewrite (bool_decide_eq_true_2 (m ∈ m :: _)) by left.
    case_bool_decide; [|done]. by destruct (st !! m).
  - rewrite list_lookup_alter_ne by done.
    rewrite (bool_decide_ext (m ∈ m' :: _) (m ∈ l.*2)); [done|].
    rewrite elem_of_cons. split; [by intros [?|?]|by right].
Qed.

Lemma forward_values_elem s m :
  m ∈ (map_to_list (xrMeshToThreeMesh s)).*2 <->
  exists x, xrMeshToThreeMesh s !! x = Some m.
Proof.
  rewrite list_elem_of_fmap. split.
  - intros ([x m'] & -> & Hin). exists x. by apply elem_of_map_to_list.
  - intros [x Hx]. exists (x, m). split; [done|]. by apply elem_of_map_to_list.
Qed.

(** X3. [initPhysics] touches the mapped meshes only: both maps and the
    children stay as they are, the object of every mapped handle becomes
    that object with the registrar recorded, and an object no handle is
    mapped to, such as a disposed one, is left exactly as it was. *)
Theorem initPhysics_touches_mapped_only registrar (this : MeshDetector) :
  xrMeshToThreeMesh (initPhysics registrar this) = xrMeshToThreeMesh this /\
  threeMeshToXrMesh (initPhysics registrar this) = threeMeshToXrMesh this /\
  children (initPhysics registrar this) = children this /\
  (forall xrMesh threeMesh,
     xrMeshToThreeMesh this !! xrMesh = Some threeMesh ->
     store (initPhysics registrar this) !! threeMesh
     = initRapierPhysics registrar <$> store this !! threeMesh) /\
  (forall threeMesh,
     (forall xrMesh, xrMeshToThreeMesh this !! xrMesh <> Some threeMesh) ->
     store (initPhysics registrar this) !! threeMesh
     = store this !! threeMesh).
Proof.
  split; [done|]. split; [done|]. split; [done|]. split.
  - intros x m Hx. rewrite initPhysics_store_cases.
    rewrite bool_decide_eq_true_2; [done|].
    apply forward_values_elem. by exists x.
  - intros m Hnone. rewrite initPhysics_store_cases.
    rewrite bool_decide_eq_false_2; [done|].
    intros [x Hx]%forward_values_elem. by apply Hnone in Hx.
Qed.

Lemma updateMeshes_keeps_object (R : DetectedMesh -> Prop) env frame s m :
  (forall o, R o -> R (dispose o)) ->
  (forall physics o, R o -> R (initRapierPhysics physics o)) ->
  (forall env' x o, R o -> R (updateVertices env' x o)) ->
  (forall pose o, R o -> R (copyPose pose o)) ->
  (exists o, store s !! m = Some o /\ R o) ->
  exists o, store (updateMeshes env frame s) !! m = Some o /\ R o.
Proof.
  intros Hd Hp Hv Hc.
  apply (updateMeshes_preserves
           (fun s' => exists o, store s' !! m = Some o /\ R o)).
  - intros now s' H. exact H.
  - intros x m' s' H _. apply removeMesh_keeps; auto.
  - intros env' frame' rs x s' (o & Ho & HR) _. exists o.
    rewrite addNewMesh_store_old; [done|]. by eapply lookup_lt_Some.
  - intros env' frame' rs x m' s' H _.
    apply updateExistingMesh_keeps; auto.
Qed.

Lemma initPhysics_keeps_object (R : DetectedMesh -> Prop) registrar s m :
  (forall o, R o -> R (initRapierPhysics registrar o)) ->
  (exists o, store s !! m = Some o /\ R o) ->
  exists o, store (initPhysics registrar s) !! m = Some o /\ R o.
Proof.
  intros Hp (o & Ho & HR). rewrite initPhysics_store_cases, Ho.
  case_bool_decide; simpl; eauto.
Qed.

(** X4. A mesh keeps the material it was created with: whatever calls
    follow, also an [init] that switches the debug visualisations on, the
    object stays in the store with the same material. *)
Theorem material_fixed_at_creation (from this : MeshDetector) threeMesh mesh :
  reachableFrom from this ->
  store from !! threeMesh = Some mesh ->
  exists mesh', store this !! threeMesh = Some mesh' /\
                material mesh' = material mesh.
Proof.
  intros Hreach Hmesh. induction Hreach as
    [|options this _ IH|registrar this _ IH|env frame this _ IH].
  - by exists mesh.
  - unfold init. destruct (showDebugVisualizations options); exact IH.
  - by apply (initPhysics_keeps_object
                (fun o => material o = material mesh)).
  - by apply (updateMeshes_keeps_object
                (fun o => material o = material mesh)).
Qed.

Lemma material_fixed_at_creation_witness :
  let later :=
    updateMeshes (envAt 2000 (Some "floor"%string) [])
      (Some (frameOf [7%N] (fun _ => None)))
      (init (mkOptions true) afterPosedTick) in
  store afterPosedTick !! 0 = Some posedMesh /\
  debugMaterials later !! "floor"%string = Some (debugMaterial 0x00ff00) /\
  exists mesh', store later !! 0 = Some mesh' /\
                material mesh' = defaultMaterial.
Proof.
  intros later.
  assert (H : store afterPosedTick !! 0 = Some posedMesh)
    by (vm_compute; reflexivity).
  split; [exact H|]. split; [vm_compute; reflexivity|].
  apply (material_fixed_at_creation afterPosedTick later 0 posedMesh);
    [|exact H].
  apply reachableFrom_updateMeshes, reachableFrom_init, reachableFrom_here.
Defined.

(** X5. A disposed mesh is never brought back: once an object of a
    reachable state is disposed of, it stays disposed, no handle is
    mapped to it and it is not a child of the script, whatever calls
    follow; a mesh that reappears gets a new object. *)
Theorem disposed_never_remapped (from this : MeshDetector) threeMesh mesh :
  reachable from ->
  reachableFrom from this ->
  store from !! threeMesh = Some mesh ->
  disposed mesh = true ->
  (exists mesh', store this !! threeMesh = Some mesh' /\
                 disposed mesh' = true) /\
  (forall xrMesh, xrMeshToThreeMesh this !! xrMesh <> Some threeMesh) /\
  threeMeshToXrMesh this !! threeMesh = None /\
  threeMesh ∉ children this.
Proof.
  intros Hfrom Hreach Hmesh Hdisposed.
  assert (Hthis : consistent this).
  { by apply reachable_consistent, (reachableFrom_reachable from). }
  assert (Hkept : exists mesh', store this !! threeMesh = Some mesh' /\
                                disposed mesh' = true).
  { clear Hthis. induction Hreach as
      [|options this _ IH|registrar this _ IH|env frame this _ IH].
    - by exists mesh.
    - unfold init. destruct (showDebugVisualizations options); exact IH.
    - by apply (initPhysics_keeps_object (fun o => disposed o = true)).
    - by apply (updateMeshes_keeps_object (fun o => disposed o = true)). }
  split; [exact Hkept|]. destruct Hkept as (mesh' & Hmesh' & Hd').
  apply (disposed_unmapped this Hthis _ _ Hmesh') in Hd'.
  split; [|split; [exact Hd'|]].
  - intros x Hx. apply (forward_reverse this Hthis) in Hx. congruence.
  - rewrite (attached_mapped this Hthis), Hd'. by intros [? ?].
Qed.

Lemma disposed_never_remapped_witness :
  let culled :=
    updateMeshes (envAt 2000 None []) (Some (frameOf [] (fun _ => None)))
      afterFirstTick in
  let back :=
    updateMeshes (envAt 3000 None []) (Some (frameOf [7%N] (fun _ => None)))
      culled in
  xrMeshToThreeMesh back !! 7%N = Some 1 /\
  (exists mesh', store back !! 0 = Some mesh' /\ disposed mesh' = true) /\
  (forall xrMesh, xrMeshToThreeMesh back !! xrMesh <> Some 0) /\
  threeMeshToXrMesh back !! 0 = None /\
  0 ∉ children back.
Proof.
  intros culled back.
  split; [vm_compute; reflexivity|].
  apply (disposed_never_remapped culled back 0
           (dispose (mkDetectedMesh defaultMaterial (THREE.mkVector3 0 0 0)
                       (THREE.mkQuaternion 0 0 0 1) [1; 2; 3]%float false None))).
  - apply reachable_updateMeshes, reachable_updateMeshes, reachable_initial.
  - apply reachableFrom_updateMeshes, reachableFrom_here.
  - vm_compute. reflexivity.
  - reflexivity.
Defined.

(** X6. [updateMeshes] never writes the settings: the table of label
    materials, the fallback material and the physics registrar are the
    same after any call. *)
Theorem updateMeshes_keeps_settings env frame (this : MeshDetector) :
  debugMaterials (updateMeshes env frame this) = debugMaterials this /\
  fallbackDebugMaterial (updateMeshes env frame this)
  = fallbackDebugMaterial this /\
  physics (updateMeshes env frame this) = physics this.
Proof.
  apply (updateMeshes_preserves
           (fun s' => debugMaterials s' = debugMaterials this /\
                      fallbackDebugMaterial s' = fallbackDebugMaterial this /\
                      physics s' = physics this)); try done.
  - intros env' frame' rs x s' H _.
    by destruct (sameSettings_add s' env' frame' rs x s')
      as (-> & -> & -> & _).
  - intros env' frame' rs x m s' H _.
    by destruct (sameSettings_update s' env' frame' rs x m s')
      as (-> & -> & -> & _).
Qed.

(** ** Reconciliation with the feed *)

Lemma shownCount_app env frame rs cp cf before after :
  shownCount env frame rs cp cf (before ++ after)
  = (shownCount env frame rs cp cf before
     + shownCount env frame rs cp cf after)%Z.
Proof.
  induction before as [|x before IH]; [unfold shownCount; simpl; lia|].
  cbn [app]. rewrite !shownCount_cons, IH. lia.
Qed.

Lemma unreported_forward env frame meshes rs s x :
  detectedMeshes frame = Some meshes ->
  throttled env s = false ->
  getReferenceSpace env = Some rs ->
  x ∉ meshes ->
  xrMeshToThreeMesh (updateMeshes env (Some frame) s) !! x = None.
Proof.
  intros Hm Ht Hrs Hout.
  rewrite (updateMeshes_eligible env frame meshes rs) by done.
  apply processMeshes_ind.
  - rewrite deleteOldMeshes_forward. by rewrite bool_decide_eq_false_2.
  - intros s' x' c Hs Hin. rewrite processMesh_forward.
    rewrite decide_False; [done|]. by intros ->.
Qed.

(** X7. What an eligible call leaves mapped: when fewer than
    [MAX_MESHES_PER_FRAME] meshes of the feed pass the visibility test,
    the handles mapped after the call are exactly the meshes of the feed
    that pass it, whatever was mapped before. *)
Theorem eligible_call_maps_shown_feed env frame meshes rs
    (this : MeshDetector) :
  detectedMeshes frame = Some meshes ->
  throttled env this = false ->
  getReferenceSpace env = Some rs ->
  (shownCount env frame rs (fst (getCameraInfo frame rs))
     (snd (getCameraInfo frame rs)) meshes < MAX_MESHES_PER_FRAME)%Z ->
  reconciled env frame rs meshes (updateMeshes env (Some frame) this).
Proof.
  intros Hm Ht Hrs Hcount x.
  destruct (decide (x ∈ meshes)) as [Hin|Hout].
  - apply list_elem_of_split in Hin as (earlier & later & ->).
    pose proof (reached_forward env frame earlier later rs this x Hm Ht Hrs)
      as Hreached.
    rewrite shownCount_app in Hcount.
    pose proof (shownCount_nonneg env frame rs (fst (getCameraInfo frame rs))
                  (snd (getCameraInfo frame rs)) (x :: later)).
    specialize (Hreached ltac:(lia)).
    destruct (shown env frame rs x).
    + split; [intros _|done]. split; [|done].
      rewrite elem_of_app, elem_of_cons. auto.
    + rewrite Hreached. split; [by intros [? ?]|by intros [_ ?]].
  - rewrite (unreported_forward env frame meshes rs this x) by done.
    split; [by intros [? ?]|by intros [? _]].
Qed.

Lemma eligible_call_maps_shown_feed_witness :
  let env := envAt 2000 None [] in
  let poses space := if (space =? 8)%N then Some (poseAt 0 0 (-5)) else None in
  let frame := frameOf [8%N; 9%N] poses in
  shown env frame 0%N 8%N = false /\
  shown env frame 0%N 9%N = true /\
  reconciled env frame 0%N [8%N; 9%N]
    (updateMeshes env (Some frame) afterFirstTick).
Proof.
  intros env poses frame.
  split; [vm_compute; reflexivity|]. split; [vm_compute; reflexivity|].
  apply (eligible_call_maps_shown_feed env frame [8%N; 9%N] 0%N afterFirstTick).
  - reflexivity.
  - vm_compute. reflexivity.
  - reflexivity.
  - vm_compute. reflexivity.
Defined.

(** X8. A shown mesh keeps its object: a handle that is mapped, is in the
    feed of an eligible call and passes the visibility test is mapped to
    the same object after the call, however long the feed is. *)
Theorem shown_mesh_keeps_object env frame meshes rs (this : MeshDetector)
    xrMesh threeMesh :
  detectedMeshes frame = Some meshes ->
  throttled env this = false ->
  getReferenceSpace env = Some rs ->
  xrMesh ∈ meshes ->
  shown env frame rs xrMesh = true ->
  xrMeshToThreeMesh this !! xrMesh = Some threeMesh ->
  xrMeshToThreeMesh (updateMeshes env (Some frame) this) !! xrMesh
  = Some threeMesh.
Proof.
  intros Hm Ht Hrs Hin Hshown Hx.
  rewrite (updateMeshes_eligible env frame meshes rs) by done.
  apply processMeshes_ind.
  - rewrite deleteOldMeshes_forward. by rewrite bool_decide_eq_true_2.
  - intros s x' c Hs _. rewrite processMesh_forward.
    destruct (decide (xrMesh = x')) as [<-|Hne]; [|done].
    unfold shown in Hshown. by rewrite Hshown, Hs.
Qed.

Lemma shown_mesh_keeps_object_witness :
  let env := envAt 2000 None [] in
  let frame := frameOf [8%N; 7%N] (fun _ => Some (poseAt 0 0 (-2))) in
  xrMeshToThreeMesh afterFirstTick !! 7%N = Some 0 /\
  xrMeshToThreeMesh (updateMeshes env (Some frame) afterFirstTick) !! 7%N
  = Some 0.
Proof.
  intros env frame.
  assert (H : xrMeshToThreeMesh afterFirstTick !! 7%N = Some 0)
    by (vm_compute; reflexivity).
  split; [exact H|].
  apply (shown_mesh_keeps_object env frame [8%N; 7%N] 0%N afterFirstTick 7%N 0).
  - reflexivity.
  - vm_compute. reflexivity.
  - reflexivity.
  - rewrite !elem_of_cons. auto.
  - vm_compute. reflexivity.
  - exact H.
Defined.

(** X9. An empty feed clears the detector: after an eligible call whose
    frame reports no mesh, both maps and the children are empty and every
    object of the store has been disposed of. *)
Theorem empty_feed_clears env frame rs (this : MeshDetector) :
  reachable this ->
  detectedMeshes frame = Some [] ->
  throttled env this = false ->
  getReferenceSpace env = Some rs ->
  let after := updateMeshes env (Some frame) this in
  xrMeshToThreeMesh after = ∅ /\
  threeMeshToXrMesh after = ∅ /\
  children after = [] /\
  length (store after) = length (store this) /\
  forall threeMesh mesh,
    store after !! threeMesh = Some mesh -> disposed mesh = true.
Proof.
  intros Hreach Hm Ht Hrs after.
  assert (Hafter : consistent after).
  { by apply consistent_updateMeshes, reachable_consistent. }
  assert (Hfwd : forall x, xrMeshToThreeMesh after !! x = None).
  { intros x. apply (unreported_forward env frame [] rs); try done.
    apply not_elem_of_nil. }
  assert (Hrev : forall m, threeMeshToXrMesh after !! m = None).
  { intros m. destruct (threeMeshToXrMesh after !! m) as [x|] eqn:E; [|done].
    apply (reverse_forward after Hafter) in E. by rewrite Hfwd in E. }
  split; [apply map_eq; intros x; by rewrite Hfwd, lookup_empty|].
  split; [apply map_eq; intros m; by rewrite Hrev, lookup_empty|].
  split; [|split].
  - destruct (children after) as [|m l] eqn:E; [done|].
    assert (Hin : m ∈ children after) by (rewrite E; left).
    apply (attached_mapped after Hafter) in Hin as [x Hx].
    by rewrite Hrev in Hx.
  - unfold after. rewrite (updateMeshes_eligible env frame [] rs) by done.
    cbn [processMeshes snd].
    apply (deleteOldMeshes_preserves
             (fun s => length (store s) = length (store this))); [|done].
    intros x m s Hs _. simpl. by rewrite length_alter.
  - intros m o Ho. by apply (disposed_unmapped after Hafter m o Ho).
Qed.

Lemma empty_feed_clears_witness :
  let env := envAt 2000 None [] in
  let frame := frameOf [] (fun _ => None) in
  let after := updateMeshes env (Some frame) afterFirstTick in
  children afterFirstTick = [0] /\
  xrMeshToThreeMesh after = ∅ /\
  threeMeshToXrMesh after = ∅ /\
  children after = [] /\
  length (store after) = length (store afterFirstTick) /\
  forall threeMesh mesh,
    store after !! threeMesh = Some mesh -> disposed mesh = true.
Proof.
  intros env frame after.
  split; [vm_compute; reflexivity|].
  apply (empty_feed_clears env frame 0%N afterFirstTick).
  - apply reachable_updateMeshes, reachable_initial.
  - reflexivity.
  - vm_compute. reflexivity.
  - reflexivity.
Defined.

(** ** The cost of a call *)

Lemma processMesh_alloc env frame rs cp cf x c s :
  (Z.of_nat (length (store (snd (processMesh env frame rs cp cf x c s))))
   - Z.of_nat (length (store s))
   <= fst (processMesh env frame rs cp cf x c s) - c)%Z.
Proof.
  rewrite processMesh_count. unfold processMesh.
  destruct (shouldShowMeshInView env x cp cf frame rs); cbn [negb];
    destruct (xrMeshToThreeMesh s !! x) as [m|]; cbn [snd];
    rewrite ?addNewMesh_length, ?updateExistingMesh_length;
    cbn [removeMesh store]; rewrite ?length_alter; lia.
Qed.

Lemma processMeshes_alloc env frame rs cp cf meshes c s :
  (c <= MAX_MESHES_PER_FRAME)%Z ->
  (Z.of_nat (length (store (snd (processMeshes env frame rs cp cf meshes c s))))
   - Z.of_nat (length (store s))
   <= fst (processMeshes env frame rs cp cf meshes c s) - c)%Z /\
  (fst (processMeshes env frame rs cp cf meshes c s)
   <= MAX_MESHES_PER_FRAME)%Z /\
  (fst (processMeshes env frame rs cp cf meshes c s)
   <= c + shownCount env frame rs cp cf meshes)%Z.
Proof.
  revert c s. induction meshes as [|x rest IH]; intros c s Hc.
  - unfold shownCount. simpl. lia.
  - rewrite shownCount_cons.
    pose proof (shownCount_nonneg env frame rs cp cf rest).
    cbn [processMeshes].
    destruct (Z.geb_spec c MAX_MESHES_PER_FRAME) as [Hge|Hlt].
    { cbn [fst snd]. destruct (shouldShowMeshInView env x cp cf frame rs); lia. }
    pose proof (processMesh_alloc env frame rs cp cf x c s) as Halloc.
    pose proof (processMesh_count env frame rs cp cf x c s) as Hcount.
    destruct (processMesh env frame rs cp cf x c s) as [c' s'].
    cbn [fst snd] in Halloc, Hcount.
    destruct (IH c' s') as (H1 & H2 & H3).
    { subst c'. destruct (shouldShowMeshInView env x cp cf frame rs); lia. }
    subst c'. destruct (shouldShowMeshInView env x cp cf frame rs); lia.
Qed.

(** X10. The cap bounds the work of a call: an eligible call never
    shrinks the store and allocates at most as many objects as meshes of
    the feed pass the visibility test, and never more than
    [MAX_MESHES_PER_FRAME]. *)
Theorem allocation_bounded env frame meshes rs (this : MeshDetector) :
  detectedMeshes frame = Some meshes ->
  throttled env this = false ->
  getReferenceSpace env = Some rs ->
  let after := updateMeshes env (Some frame) this in
  (Z.of_nat (length (store this)) <= Z.of_nat (length (store after))
   <= Z.of_nat (length (store this))
      + Z.min MAX_MESHES_PER_FRAME
          (shownCount env frame rs (fst (getCameraInfo frame rs))
             (snd (getCameraInfo frame rs)) meshes))%Z.
Proof.
  intros Hm Ht Hrs after.
  destruct (updateMeshes_extends env (Some frame) this) as [Hgrow _].
  fold after in Hgrow. split; [lia|].
  unfold after. rewrite (updateMeshes_eligible env frame meshes rs) by done.
  set (s0 := deleteOldMeshes meshes _).
  assert (Hlen : length (store s0) = length (store this)).
  { apply (deleteOldMeshes_preserves
             (fun s => length (store s) = length (store this))); [|done].
    intros x m s Hs _. simpl. by rewrite length_alter. }
  destruct (processMeshes_alloc env frame rs (fst (getCameraInfo frame rs))
              (snd (getCameraInfo frame rs)) meshes 0 s0) as (H1 & H2 & H3).
  { unfold MAX_MESHES_PER_FRAME. lia. }
  rewrite Hlen in H1. lia.
Qed.

Lemma allocation_bounded_witness :
  let env := envAt 2000 None [] in
  let poses space := if (space =? 8)%N then Some (poseAt 0 0 (-5)) else None in
  let frame := frameOf [7%N; 8%N; 9%N] poses in
  let after := updateMeshes env (Some frame) afterFirstTick in
  length (store afterFirstTick) = 1 /\
  length (store after) = 2 /\
  shownCount env frame 0%N (fst (getCameraInfo frame 0%N))
    (snd (getCameraInfo frame 0%N)) [7%N; 8%N; 9%N] = 2%Z /\
  (Z.of_nat (length (store afterFirstTick)) <= Z.of_nat (length (store after))
   <= Z.of_nat (length (store afterFirstTick))
      + Z.min MAX_MESHES_PER_FRAME
          (shownCount env frame 0%N (fst (getCameraInfo frame 0%N))
             (snd (getCameraInfo frame 0%N)) [7%N; 8%N; 9%N]))%Z.
Proof.
  intros env poses frame after.
  split; [vm_compute; reflexivity|]. split; [vm_compute; reflexivity|].
  split; [vm_compute; reflexivity|].
  apply (allocation_bounded env frame [7%N; 8%N; 9%N] 0%N afterFirstTick).
  - reflexivity.
  - vm_compute. reflexivity.
  - reflexivity.
Defined.

(** ** A detector that already agrees with the feed *)

(** X11. Reconciliation is stable: when the mapped handles are already
    exactly the meshes of the feed that pass the visibility test, an
    eligible call creates nothing and removes nothing; both maps, the
    children, the number of objects and their disposal flags are as
    before. *)
Theorem reconciled_call_changes_no_mapping env frame meshes rs
    (this : MeshDetector) :
  detectedMeshes frame = Some meshes ->
  throttled env this = false ->
  getReferenceSpace env = Some rs ->
  reconciled env frame rs meshes this ->
  let after := updateMeshes env (Some frame) this in
  xrMeshToThreeMesh after = xrMeshToThreeMesh this /\
  threeMeshToXrMesh after = threeMeshToXrMesh this /\
  children after = children this /\
  disposed <$> store after = disposed <$> store this.
Proof.
  intros Hm Ht Hrs Hrec after. unfold after.
  rewrite (updateMeshes_eligible env frame meshes rs) by done.
  set (same := fun s : MeshDetector =>
         xrMeshToThreeMesh s = xrMeshToThreeMesh this /\
         threeMeshToXrMesh s = threeMeshToXrMesh this /\
         children s = children this /\
         disposed <$> store s = disposed <$> store this).
  apply (processMeshes_ind same).
  - apply (deleteOldMeshes_ind same); [done|].
    intros s x m _ _ Hx Hout. exfalso.
    destruct (proj1 (Hrec x)) as [Hin _]; [by exists m|done].
  - intros s x c (Hf & Hr & Hc & Hd) Hin.
    apply processMesh_cases.
    + intros Hshow m Hx. exfalso. rewrite Hf in Hx.
      destruct (proj1 (Hrec x)) as [_ Hshown]; [by exists m|].
      unfold shown in Hshown. congruence.
    + done.
    + intros Hshow Hx. exfalso. rewrite Hf in Hx.
      destruct (proj2 (Hrec x)) as [m Hm']; [done|]. congruence.
    + intros _ m _. unfold same.
      by rewrite updateExistingMesh_forward, updateExistingMesh_reverse,
        updateExistingMesh_children, updateExistingMesh_flags.
Qed.

Lemma reconciled_call_changes_no_mapping_witness :
  let env := envAt 2000 None [4; 5]%float in
  let poses space := if (space =? 8)%N then Some (poseAt 0 0 (-5)) else None in
  let frame := frameOf [7%N; 8%N] poses in
  let after := updateMeshes env (Some frame) afterFirstTick in
  xrMeshToThreeMesh after = xrMeshToThreeMesh afterFirstTick /\
  threeMeshToXrMesh after = threeMeshToXrMesh afterFirstTick /\
  children after = children afterFirstTick /\
  disposed <$> store after = disposed <$> store afterFirstTick.
Proof.
  intros env poses frame after.
  apply (reconciled_call_changes_no_mapping env frame [7%N; 8%N] 0%N
           afterFirstTick).
  - reflexivity.
  - vm_compute. reflexivity.
  - reflexivity.
  - intros x. destruct (decide (x = 7%N)) as [->|Hne].
    + split; intros _; [split; [left|vm_compute; reflexivity]|].
      vm_compute. eauto.
    + assert (Hx : xrMeshToThreeMesh afterFirstTick !! x = None).
      { change (xrMeshToThreeMesh afterFirstTick)
          with (<[7%N := 0]> (∅ : gmap N nat)).
        by rewrite lookup_insert_ne, lookup_empty. }
      rewrite Hx. split; [by intros [? ?]|].
      intros [[->|[->|[]%elem_of_nil]%elem_of_cons]%elem_of_cons Hshown];
        [done|]. vm_compute in Hshown. discriminate.
Defined.

(** ** The transform of a posed mesh *)

Lemma posedAs_copyPose env x pose o :
  geometry o = vertices env x -> posedAs env x pose (copyPose pose o).
Proof. intros Hg. by repeat split. Qed.

Lemma addNewMesh_posed env frame rs x pose s :
  getPose frame (meshSpace env x) rs = Some pose ->
  exists o, store (addNewMesh env frame rs x s) !! length (store s) = Some o /\
            posedAs env x pose o.
Proof.
  intros Hpose. unfold addNewMesh, createMesh, updateMeshPose.
  rewrite Hpose. cbn [withStore store physics].
  destruct (physics s); cbn [store];
    rewrite ?list_lookup_alter_eq, lookup_app_r, Nat.sub_diag by done;
    simpl; eexists; (split; [reflexivity|by repeat split]).
Qed.

Lemma updateExistingMesh_posed env frame rs x m pose s o :
  getPose frame (meshSpace env x) rs = Some pose ->
  store s !! m = Some o ->
  exists o', store (updateExistingMesh env frame rs x m s) !! m = Some o' /\
             posedAs env x pose o'.
Proof.
  intros Hpose Ho. unfold updateExistingMesh, updateMeshPose.
  rewrite Hpose. cbn [withStore store].
  rewrite !list_lookup_alter_eq, Ho. simpl.
  eexists. split; [reflexivity|by repeat split].
Qed.

Lemma tracked_self env frame rs cp cf x pose c s :
  getPose frame (meshSpace env x) rs = Some pose ->
  shouldShowMeshInView env x cp cf frame rs = true ->
  consistent s ->
  tracked env x pose (snd (processMesh env frame rs cp cf x c s)).
Proof.
  intros Hpose Hshow Hs. unfold processMesh. rewrite Hshow. cbn [negb].
  destruct (xrMeshToThreeMesh s !! x) as [m|] eqn:Hx; cbn [snd].
  - split; [by apply consistent_update|].
    pose proof (forward_reverse s Hs _ _ Hx) as Hm.
    apply (reverse_allocated s Hs) in Hm.
    destruct (lookup_lt_is_Some_2 (store s) m Hm) as [o Ho].
    destruct (updateExistingMesh_posed env frame rs x m pose s o Hpose Ho)
      as (o' & Ho' & Hposed).
    exists m, o'. by rewrite updateExistingMesh_forward.
  - split; [by apply consistent_add|].
    destruct (addNewMesh_posed env frame rs x pose s Hpose)
      as (o & Ho & Hposed).
    exists (length (store s)), o.
    by rewrite addNewMesh_forward, lookup_insert_eq.
Qed.

Lemma tracked_processMesh env frame rs cp cf x pose x' c s :
  getPose frame (meshSpace env x) rs = Some pose ->
  shouldShowMeshInView env x cp cf frame rs = true ->
  tracked env x pose s ->
  tracked env x pose (snd (processMesh env frame rs cp cf x' c s)).
Proof.
  intros Hpose Hshow (Hs & m & o & Hx & Ho & Hposed).
  destruct (decide (x' = x)) as [->|Hne]; [by apply tracked_self|].
  assert (Hother : forall m', xrMeshToThreeMesh s !! x' = Some m' -> m <> m').
  { intros m' Hx' <-. apply (forward_reverse s Hs) in Hx, Hx'. congruence. }
  apply processMesh_cases.
  - intros _ m' Hm'. split; [by apply consistent_remove|].
    exists m, o. rewrite removeMesh_forward_ne by done.
    by rewrite removeMesh_store_ne by eauto.
  - intros _ _. split; [done|]. by exists m, o.
  - intros _ Hx'. split; [by apply consistent_add|].
    exists m, o. rewrite addNewMesh_forward, lookup_insert_ne by done.
    rewrite addNewMesh_store_old; [done|]. by eapply lookup_lt_Some.
  - intros _ m' Hm'. split; [by apply consistent_update|].
    exists m, o. rewrite updateExistingMesh_forward.
    by rewrite updateExistingMesh_store_ne by eauto.
Qed.

(** X12. The transform follows the pose: a mesh of the feed that has a
    pose, passes the visibility test and is reached by the loop of an
    eligible call is mapped afterwards to an object whose position and
    quaternion are those of the pose and whose geometry is the current
    vertex data, whether the object was created or updated by the call. *)
Theorem posed_mesh_transform_refreshed env frame earlier later rs
    (this : MeshDetector) xrMesh pose :
  reachable this ->
  detectedMeshes frame = Some (earlier ++ xrMesh :: later) ->
  throttled env this = false ->
  getReferenceSpace env = Some rs ->
  (shownCount env frame rs (fst (getCameraInfo frame rs))
     (snd (getCameraInfo frame rs)) earlier < MAX_MESHES_PER_FRAME)%Z ->
  getPose frame (meshSpace env xrMesh) rs = Some pose ->
  shown env frame rs xrMesh = true ->
  exists threeMesh mesh,
    xrMeshToThreeMesh (updateMeshes env (Some frame) this) !! xrMesh
    = Some threeMesh /\
    store (updateMeshes env (Some frame) this) !! threeMesh = Some mesh /\
    posedAs env xrMesh pose mesh.
Proof.
  intros Hreach%reachable_consistent Hfeed Ht Hrs Hcount Hpose Hshown.
  cut (tracked env xrMesh pose (updateMeshes env (Some frame) this)).
  { intros (_ & m & o & H). by exists m, o. }
  rewrite (updateMeshes_eligible env frame _ rs) by done.
  apply (processMeshes_reach consistent (tracked env xrMesh pose)); [lia|..].
  - by apply consistent_deleteOldMeshes, consistent_time.
  - intros. by apply consistent_processMesh.
  - intros. by apply tracked_self.
  - intros. by apply tracked_processMesh.
Qed.

Lemma posed_mesh_transform_refreshed_witness :
  let env := envAt 2000 None [4; 5]%float in
  let pose := mkPose (mkTransform (mkPoint 0 1 (-2) 1) (mkPoint 0 1 0 0)
                        (translation 0 1 (-2))) in
  let frame := frameOf [8%N; 7%N] (fun _ => Some pose) in
  let after := updateMeshes env (Some frame) afterPosedTick in
  store afterPosedTick !! 0 = Some posedMesh /\
  exists threeMesh mesh,
    xrMeshToThreeMesh after !! 7%N = Some threeMesh /\
    store after !! threeMesh = Some mesh /\
    position mesh = THREE.mkVector3 0 1 (-2) /\
    quaternion mesh = THREE.mkQuaternion 0 1 0 0 /\
    geometry mesh = [4; 5]%float.
Proof.
  intros env pose frame after.
  split; [vm_compute; reflexivity|].
  apply (posed_mesh_transform_refreshed env frame [8%N] [] 0%N afterPosedTick
           7%N pose).
  - apply reachable_updateMeshes, reachable_initial.
  - reflexivity.
  - vm_compute. reflexivity.
  - reflexivity.
  - vm_compute. reflexivity.
  - reflexivity.
  - vm_compute. reflexivity.
Defined.

(** ** The removal pass on its own *)

(** X13. The first loop of [updateMeshes] keeps exactly the entries whose
    handle the feed reports and leaves their objects alone: a reported
    handle keeps its entry, its object is untouched and stays a child;
    every other handle loses its entry, and its object is the old object
    disposed of and is no longer a child. *)
Theorem removal_pass_keeps_reported meshes (this : MeshDetector) :
  reachable this ->
  let after := deleteOldMeshes meshes this in
  (forall xrMesh,
     xrMeshToThreeMesh after !! xrMesh
     = if bool_decide (xrMesh ∈ meshes)
       then xrMeshToThreeMesh this !! xrMesh else None) /\
  (forall xrMesh threeMesh,
     xrMeshToThreeMesh this !! xrMesh = Some threeMesh ->
     xrMesh ∈ meshes ->
     threeMeshToXrMesh after !! threeMesh = Some xrMesh /\
     store after !! threeMesh = store this !! threeMesh /\
     threeMesh ∈ children after) /\
  (forall xrMesh threeMesh,
     xrMeshToThreeMesh this !! xrMesh = Some threeMesh ->
     xrMesh ∉ meshes ->
     threeMeshToXrMesh after !! threeMesh = None /\
     store after !! threeMesh = dispose <$> store this !! threeMesh /\
     threeMesh ∉ children after).
Proof.
  intros Hs%reachable_consistent after.
  assert (Hafter : consistent after) by by apply consistent_deleteOldMeshes.
  assert (Hfwd : forall x,
            xrMeshToThreeMesh after !! x
            = if bool_decide (x ∈ meshes)
              then xrMeshToThreeMesh this !! x else None).
  { intros x. apply deleteOldMeshes_forward. }
  split; [exact Hfwd|]. split.
  - intros x m Hx Hin.
    assert (Hx' : xrMeshToThreeMesh after !! x = Some m).
    { by rewrite Hfwd, bool_decide_eq_true_2. }
    destruct (mapped_live after x m Hafter Hx') as (Hrev & _ & Hc).
    split; [done|]. split; [|done].
    apply (deleteOldMeshes_ind
             (fun s => store s !! m = store this !! m)); [done|].
    intros s x' m' Hsame _ Hx'' Hout.
    rewrite removeMesh_store_ne; [done|].
    intros <-. apply (forward_reverse this Hs) in Hx, Hx''.
    assert (x = x') by congruence. by subst x'.
  - intros x m Hx Hout.
    assert (Hx' : xrMeshToThreeMesh after !! x = None).
    { by rewrite Hfwd, bool_decide_eq_false_2. }
    destruct (mapped_live this x m Hs Hx) as (_ & (o & Ho & Hlive) & _).
    assert (Hext : extends this after).
    { apply (deleteOldMeshes_ind (extends this)); [by split|].
      intros s x' m' [Hlen Hold] _ _ _. split; simpl.
      - by rewrite length_alter.
      - intros x'' m'' H. apply lookup_delete_Some in H as [_ H].
        by apply Hold. }
    destruct (released_after this after x m Hs Hafter Hext Hx Hx')
      as (Hrev & (o' & Ho' & Hd') & Hc).
    split; [done|]. split; [|done].
    assert (Hcases : store after !! m = store this !! m \/
                     store after !! m = dispose <$> store this !! m).
    { apply (deleteOldMeshes_ind
               (fun s => store s !! m = store this !! m \/
                         store s !! m = dispose <$> store this !! m));
        [by left|].
      intros s x' m' Hcases _ _ _. cbn [removeMesh store].
      destruct (decide (m = m')) as [<-|Hne].
      - right. rewrite list_lookup_alter_eq.
        destruct Hcases as [->| ->]; [done|]. by rewrite Ho.
      - by rewrite list_lookup_alter_ne. }
    destruct Hcases as [Hsame|Hdisposed]; [|done].
    rewrite Hsame, Ho in Ho'. injection Ho' as <-. congruence.
Qed.

Lemma removal_pass_keeps_reported_witness :
  let this :=
    updateMeshes (envAt 2000 None []) (Some (frameOf [7%N; 8%N] (fun _ => None)))
      afterFirstTick in
  let after := deleteOldMeshes [8%N] this in
  xrMeshToThreeMesh this !! 7%N = Some 0 /\
  xrMeshToThreeMesh this !! 8%N = Some 1 /\
  (threeMeshToXrMesh after !! 1 = Some 8%N /\
   store after !! 1 = store this !! 1 /\
   1 ∈ children after) /\
  (threeMeshToXrMesh after !! 0 = None /\
   store after !! 0 = dispose <$> store this !! 0 /\
   0 ∉ children after).
Proof.
  intros this after.
  assert (H : reachable this)
    by apply reachable_updateMeshes, reachable_updateMeshes, reachable_initial.
  assert (H7 : xrMeshToThreeMesh this !! 7%N = Some 0)
    by (vm_compute; reflexivity).
  assert (H8 : xrMeshToThreeMesh this !! 8%N = Some 1)
    by (vm_compute; reflexivity).
  destruct (removal_pass_keeps_reported [8%N] this H) as (_ & Hkept & Hgone).
  split; [exact H7|]. split; [exact H8|]. split.
  - apply (Hkept 8%N 1 H8). left.
  - apply (Hgone 7%N 0 H7).
    intros [?|[]%elem_of_nil]%elem_of_cons. discriminate.
Defined.

(** ** Materials after [init] *)

Lemma init_debug_lookup options s i label color :
  showDebugVisualizations options = true ->
  SEMANTIC_LABELS !! i = Some label ->
  SEMANTIC_COLORS !! i = Some color ->
  debugMaterials (init options s) !! label = Some (debugMaterial color).
Proof.
  intros Hshow Hlabel Hcolor. unfold init. rewrite Hshow. cbn.
  destruct i as [|[|[|i]]]; simpl in Hlabel, Hcolor; try done;
    injection Hlabel as <-; injection Hcolor as <-.
  - by rewrite lookup_insert_ne, lookup_insert_ne, lookup_insert_eq.
  - by rewrite lookup_insert_ne, lookup_insert_eq.
  - by rewrite lookup_insert_eq.
Qed.

(** X14. Labels and colours are paired by position: once [init] has run
    with the debug visualisations on, then whatever calls follow, a mesh
    created for a handle whose semantic label is the i-th of
    [SEMANTIC_LABELS] carries the wireframe material of the i-th of
    [SEMANTIC_COLORS]. *)
Theorem labelled_mesh_gets_its_colour options (from this : MeshDetector)
    i label color env frame rs xrMesh :
  showDebugVisualizations options = true ->
  reachableFrom (init options from) this ->
  SEMANTIC_LABELS !! i = Some label ->
  SEMANTIC_COLORS !! i = Some color ->
  semanticLabel env xrMesh = Some label ->
  exists mesh,
    store (snd (createMesh env frame rs xrMesh this))
      !! fst (createMesh env frame rs xrMesh this) = Some mesh /\
    material mesh = THREE.mkMaterial color true THREE.DoubleSide true.
Proof.
  intros Hshow Hreach Hlabel Hcolor Hsem.
  assert (Hlookup : debugMaterials this !! label = Some (debugMaterial color)).
  { induction Hreach as
      [|options' this _ IH|registrar this _ IH|env' frame' this _ IH].
    - by apply (init_debug_lookup options from i).
    - destruct (showDebugVisualizations options') eqn:Hshow'.
      + by apply (init_debug_lookup options' this i).
      + unfold init. by rewrite Hshow'.
    - exact IH.
    - by rewrite (proj1 (updateMeshes_materials env' frame' this)). }
  destruct (createMesh_material env frame rs xrMesh this)
    as (mesh & Hmesh & Hmat).
  exists mesh. split; [done|]. rewrite Hmat, Hsem.
  unfold chooseMaterial. rewrite decide_False, Hlookup; [done|].
  intros ->. destruct i as [|[|[|i]]]; simpl in Hlabel; done.
Qed.

Lemma labelled_mesh_gets_its_colour_witness :
  let this :=
    updateMeshes (envAt 1000 None []) (Some (frameOf [7%N] (fun _ => None)))
      (init (mkOptions true) initial) in
  let env := envAt 2000 (Some "ceiling"%string) [] in
  let frame := frameOf [8%N] (fun _ => None) in
  exists mesh,
    store (snd (createMesh env frame 0%N 8%N this))
      !! fst (createMesh env frame 0%N 8%N this) = Some mesh /\
    material mesh = THREE.mkMaterial 0xffff00 true THREE.DoubleSide true.
Proof.
  intros this env frame.
  apply (labelled_mesh_gets_its_colour (mkOptions true) initial this 1
           "ceiling"%string 0xffff00%Z env frame 0%N 8%N); try reflexivity.
  apply reachableFrom_updateMeshes, reachableFrom_here.
Defined.

Lemma quiet_reachable s :
  reachable s -> fallbackDebugMaterial s = None -> debugMaterials s = ∅.
Proof.
  induction 1 as [|options s _ IH|registrar s _ IH|env frame s _ IH].
  - done.
  - unfold init. destruct (showDebugVisualizations options); [done|exact IH].
  - exact IH.
  - destruct (updateMeshes_materials env frame s) as [-> ->]. exact IH.
Qed.

(** X15. Without debug visualisations every mesh is invisible: in a
    reachable state that has no fallback material, which is so until
    [init] runs with the debug visualisations on, no label material is
    registered and a created mesh carries the default material, whose
    [visible] is false, whatever its semantic label. *)
Theorem undebugged_mesh_invisible env frame rs xrMesh (this : MeshDetector) :
  reachable this ->
  fallbackDebugMaterial this = None ->
  debugMaterials this = ∅ /\
  exists mesh,
    store (snd (createMesh env frame rs xrMesh this))
      !! fst (createMesh env frame rs xrMesh this) = Some mesh /\
    material mesh = defaultMaterial /\
    THREE.visible (material mesh) = false.
Proof.
  intros Hreach Hfb. pose proof (quiet_reachable this Hreach Hfb) as Hdm.
  split; [done|].
  destruct (createMesh_material env frame rs xrMesh this)
    as (mesh & Hmesh & Hmat).
  exists mesh. split; [done|].
  assert (Hdefault : material mesh = defaultMaterial).
  { rewrite Hmat. unfold chooseMaterial. rewrite Hdm, Hfb.
    destruct (semanticLabel env xrMesh) as [label|]; [|done].
    case_decide; [done|]. by rewrite lookup_empty. }
  split; [done|]. by rewrite Hdefault.
Qed.

Lemma undebugged_mesh_invisible_witness :
  let this := init (mkOptions false) afterFirstTick in
  let env := envAt 2000 (Some "floor"%string) [] in
  let frame := frameOf [8%N] (fun _ => None) in
  debugMaterials this = ∅ /\
  exists mesh,
    store (snd (createMesh env frame 0%N 8%N this))
      !! fst (createMesh env frame 0%N 8%N this) = Some mesh /\
    material mesh = defaultMaterial /\
    THREE.visible (material mesh) = false.
Proof.
  intros this env frame.
  apply (undebugged_mesh_invisible env frame 0%N 8%N this); [|reflexivity].
  apply reachable_init, reachable_updateMeshes, reachable_initial.
Defined.

(** ** Physics before a registrar is attached *)

Lemma unregistered_alter (f : DetectedMesh -> DetectedMesh) m
    (st : list DetectedMesh) :
  (forall o, rapier (f o) = rapier o) ->
  (forall m' o, st !! m' = Some o -> rapier o = None) ->
  forall m' o, alter f m st !! m' = Some o -> rapier o = None.
Proof.
  intros Hf Hst m' o. destruct (decide (m' = m)) as [->|Hne].
  - rewrite list_lookup_alter_eq.
    destruct (st !! m) as [o'|] eqn:E; simpl; [|done].
    intros [= <-]. rewrite Hf. by apply (Hst m).
  - rewrite list_lookup_alter_ne by done. apply Hst.
Qed.

Lemma updateMeshes_physics env frame s :
  physics (updateMeshes env frame s) = physics s.
Proof.
  apply (updateMeshes_preserves (fun s' => physics s' = physics s)); try done.
  - intros env' frame' rs x s' H _.
    by destruct (sameSettings_add s' env' frame' rs x s') as (_ & _ & -> & _).
  - intros env' frame' rs x m s' H _.
    by destruct (sameSettings_update s' env' frame' rs x m s')
      as (_ & _ & -> & _).
Qed.

(** X16. No registrar, no registration: in a reachable state whose
    [physics] is unset, which is so until [initPhysics] is called, no
    object of the store carries a physics registration. *)
Theorem unregistered_without_registrar (this : MeshDetector) threeMesh mesh :
  reachable this ->
  physics this = None ->
  store this !! threeMesh = Some mesh ->
  rapier mesh = None.
Proof.
  intros Hreach. revert threeMesh mesh.
  induction Hreach as [|options s _ IH|registrar s _ IH|env frame s _ IH].
  - done.
  - unfold init. destruct (showDebugVisualizations options); exact IH.
  - done.
  - intros m o Hp. revert m o.
    rewrite updateMeshes_physics in Hp.
    apply (updateMeshes_preserves
             (fun s' => physics s' = None /\
                        forall m o, store s' !! m = Some o -> rapier o = None));
      [| | | |split; [done|intros m o; by apply IH]].
    + intros now s' H. exact H.
    + intros x m s' [Hp' Hst] _. split; [done|].
      by apply unregistered_alter.
    + intros env' frame' rs x s' [Hp' Hst] _. split.
      * by destruct (sameSettings_add s' env' frame' rs x s')
          as (_ & _ & -> & _).
      * intros m o Ho.
        destruct (decide (m < length (store s'))) as [Hlt|Hge].
        { rewrite addNewMesh_store_old in Ho by done. by apply (Hst m). }
        destruct (addNewMesh_store_new env' frame' rs x s')
          as (o' & Ho' & _ & _ & Hr & _).
        pose proof (lookup_lt_Some _ _ _ Ho) as Hm.
        rewrite addNewMesh_length in Hm.
        assert (m = length (store s')) as -> by lia.
        rewrite Ho' in Ho. injection Ho as <-. congruence.
    + intros env' frame' rs x m s' [Hp' Hst] _. split.
      * by destruct (sameSettings_update s' env' frame' rs x m s')
          as (_ & _ & -> & _).
      * unfold updateExistingMesh, updateMeshPose.
        destruct (getPose _ _ _); cbn [store withStore];
          repeat apply unregistered_alter; auto.
Qed.

Lemma unregistered_without_registrar_witness :
  physics afterPosedTick = None /\
  store afterPosedTick !! 0 = Some posedMesh /\
  rapier posedMesh = None.
Proof.
  assert (H : store afterPosedTick !! 0 = Some posedMesh)
    by (vm_compute; reflexivity).
  split; [reflexivity|]. split; [exact H|].
  apply (unregistered_without_registrar afterPosedTick 0 posedMesh);
    [|reflexivity|exact H].
  apply reachable_updateMeshes, reachable_initial.
Defined.

(** ** NaN in the visibility test *)

Lemma sub_nan_l y : (nan - y)%float = nan.
Proof. apply Prim2SF_inj. by rewrite sub_spec. Qed.

Lemma sub_nan_r y : (y - nan)%float = nan.
Proof.
  apply Prim2SF_inj. rewrite sub_spec. by destruct (Prim2SF y).
Qed.

Lemma mul_nan_l y : (nan * y)%float = nan.
Proof. apply Prim2SF_inj. by rewrite mul_spec. Qed.

Lemma add_nan_l y : (nan + y)%float = nan.
Proof. apply Prim2SF_inj. by rewrite add_spec. Qed.

Lemma add_nan_r y : (y + nan)%float = nan.
Proof.
  apply Prim2SF_inj. rewrite add_spec. by destruct (Prim2SF y).
Qed.

Lemma sqrt_nan : sqrt nan = nan.
Proof. reflexivity. Qed.

Lemma ltb_nan_r y : (y <? nan)%float = false.
Proof.
  rewrite ltb_spec. unfold SFltb.
  by destruct (Prim2SF y) as [| | |[] ? ?].
Qed.

Lemma viewDistance_nan meshPosition cameraPosition :
  THREE.x meshPosition = nan \/ THREE.y meshPosition = nan \/
  THREE.z meshPosition = nan \/ THREE.x cameraPosition = nan \/
  THREE.y cameraPosition = nan \/ THREE.z cameraPosition = nan ->
  viewDistance meshPosition cameraPosition = nan.
Proof.
  unfold viewDistance.
  intros [->|[->|[->|[->|[->| ->]]]]];
    rewrite ?sub_nan_l, ?sub_nan_r, ?mul_nan_l, ?add_nan_r, ?add_nan_l;
    reflexivity.
Qed.

(** X17. NaN never culls: when the pose of a mesh is available but a
    coordinate of its position, read from entries 12 to 14 of the pose
    matrix, or a coordinate of the camera position is NaN, as it is for a
    matrix too short to hold the entry, the distance is NaN, both
    comparisons fail and [shouldShowMeshInView] answers true. *)
Theorem nan_position_shown env xrMesh cameraPosition cameraForward frame rs
    meshPose :
  getPose frame (meshSpace env xrMesh) rs = Some meshPose ->
  THREE.elem (matrix (transform meshPose)) 12 = nan \/
  THREE.elem (matrix (transform meshPose)) 13 = nan \/
  THREE.elem (matrix (transform meshPose)) 14 = nan \/
  length (matrix (transform meshPose)) <= 14 \/
  THREE.x cameraPosition = nan \/
  THREE.y cameraPosition = nan \/
  THREE.z cameraPosition = nan ->
  shouldShowMeshInView env xrMesh cameraPosition cameraForward frame rs = true.
Proof.
  intros Hpose Hnan. unfold shouldShowMeshInView. rewrite Hpose.
  rewrite viewDistance_nan.
  - by rewrite !ltb_nan_r.
  - change (THREE.x (THREE.setFromMatrixPosition
                       (THREE.fromArray (matrix (transform meshPose)))))
      with (THREE.elem (matrix (transform meshPose)) 12).
    change (THREE.y (THREE.setFromMatrixPosition
                       (THREE.fromArray (matrix (transform meshPose)))))
      with (THREE.elem (matrix (transform meshPose)) 13).
    change (THREE.z (THREE.setFromMatrixPosition
                       (THREE.fromArray (matrix (transform meshPose)))))
      with (THREE.elem (matrix (transform meshPose)) 14).
    destruct Hnan as [?|[?|[?|[Hshort|?]]]]; auto 7.
    right. right. left. unfold THREE.elem. by apply nth_overflow.
Qed.

Lemma nan_position_shown_witness :
  let env := envAt 1000 None [] in
  let pose := mkPose (mkTransform (mkPoint 0 0 (-9) 1) (mkPoint 0 0 0 1)
                        [1; 0; 0; 0;  0; 1; 0; 0;  0; 0; 1; 0]%float) in
  let frame := frameOf [1%N] (fun _ => Some pose) in
  shouldShowMeshInView env 1%N (THREE.mkVector3 0 0 0)
    (THREE.mkVector3 0 0 (-1)) frame 0%N = true.
Proof.
  intros env pose frame.
  apply (nan_position_shown env 1%N _ _ frame 0%N pose); [reflexivity|].
  right. right. right. left. simpl. lia.
Defined.

(** ** Hidden meshes, new meshes, and the first second *)

(** X18. A hidden mesh is taken down whatever hides it: a mapped mesh of
    the feed that fails the visibility test, by distance or by the cone,
    and is reached by the loop of an eligible call loses both mapping
    entries, its object is disposed of and leaves the scene. *)
Theorem hidden_mesh_taken_down env frame earlier later rs
    (this : MeshDetector) xrMesh threeMesh :
  reachable this ->
  detectedMeshes frame = Some (earlier ++ xrMesh :: later) ->
  throttled env this = false ->
  getReferenceSpace env = Some rs ->
  (shownCount env frame rs (fst (getCameraInfo frame rs))
     (snd (getCameraInfo frame rs)) earlier < MAX_MESHES_PER_FRAME)%Z ->
  xrMeshToThreeMesh this !! xrMesh = Some threeMesh ->
  shown env frame rs xrMesh = false ->
  let after := updateMeshes env (Some frame) this in
  xrMeshToThreeMesh after !! xrMesh = None /\
  threeMeshToXrMesh after !! threeMesh = None /\
  (exists mesh, store after !! threeMesh = Some mesh /\ disposed mesh = true) /\
  threeMesh ∉ children after.
Proof.
  intros Hreach%reachable_consistent Hfeed Ht Hrs Hcount Hx Hshown after.
  pose proof (reached_forward env frame earlier later rs this xrMesh
                Hfeed Ht Hrs Hcount) as Hgone.
  rewrite Hshown in Hgone. split; [done|].
  apply (released_after this after xrMesh threeMesh); try done.
  - by apply consistent_updateMeshes.
  - apply updateMeshes_extends.
Qed.

Lemma hidden_mesh_taken_down_witness :
  let env := envAt 2000 None [] in
  let frame := frameOf [7%N] (fun _ => Some (poseAt 3 0 0)) in
  let after := updateMeshes env (Some frame) afterFirstTick in
  (kMaxViewDistance
     <? viewDistance (THREE.mkVector3 3 0 0) (THREE.mkVector3 0 0 0))%float
  = false /\
  shown env frame 0%N 7%N = false /\
  xrMeshToThreeMesh after !! 7%N = None /\
  threeMeshToXrMesh after !! 0 = None /\
  (exists mesh, store after !! 0 = Some mesh /\ disposed mesh = true) /\
  0 ∉ children after.
Proof.
  intros env frame after.
  assert (Hshown : shown env frame 0%N 7%N = false) by (vm_compute; reflexivity).
  split; [vm_compute; reflexivity|]. split; [exact Hshown|].
  apply (hidden_mesh_taken_down env frame [] [] 0%N afterFirstTick 7%N 0).
  - apply reachable_updateMeshes, reachable_initial.
  - reflexivity.
  - vm_compute. reflexivity.
  - reflexivity.
  - vm_compute. reflexivity.
  - vm_compute. reflexivity.
  - exact Hshown.
Defined.

(** X19. Nothing is created in vain: every object an eligible call
    allocates is, when the call returns, the object of a mesh of the feed
    that passes the visibility test; it has not been disposed of and it
    is a child of the script. *)
Theorem created_meshes_stay_mapped env frame meshes rs (this : MeshDetector)
    threeMesh :
  reachable this ->
  detectedMeshes frame = Some meshes ->
  throttled env this = false ->
  getReferenceSpace env = Some rs ->
  let after := updateMeshes env (Some frame) this in
  length (store this) <= threeMesh < length (store after) ->
  exists xrMesh,
    xrMesh ∈ meshes /\
    shown env frame rs xrMesh = true /\
    xrMeshToThreeMesh after !! xrMesh = Some threeMesh /\
    (exists mesh, store after !! threeMesh = Some mesh /\
                  disposed mesh = false) /\
    threeMesh ∈ children after.
Proof.
  intros Hreach%reachable_consistent Hm Ht Hrs after Hnew.
  assert (Hafter : consistent after) by by apply consistent_updateMeshes.
  cut (exists x, x ∈ meshes /\ shown env frame rs x = true /\
                 xrMeshToThreeMesh after !! x = Some threeMesh).
  { intros (x & Hin & Hshown & Hx). exists x.
    destruct (mapped_live after x threeMesh Hafter Hx) as (_ & Hlive & Hc).
    auto. }
  revert Hnew. unfold after.
  rewrite (updateMeshes_eligible env frame meshes rs) by done.
  unfold shown.
  set (cp := fst (getCameraInfo frame rs)).
  set (cf := snd (getCameraInfo frame rs)).
  set (s0 := deleteOldMeshes meshes _).
  assert (Hlen : length (store s0) = length (store this)).
  { apply (deleteOldMeshes_preserves
             (fun s => length (store s) = length (store this))); [|done].
    intros x m s Hs _. simpl. by rewrite length_alter. }
  intros [Hge Hlt]. revert Hlt.
  apply (processMeshes_ind
           (fun s => threeMesh < length (store s) ->
                     exists x, x ∈ meshes /\
                       shouldShowMeshInView env x cp cf frame rs = true /\
                       xrMeshToThreeMesh s !! x = Some threeMesh)).
  - rewrite Hlen. lia.
  - intros s x' c IH Hin'. apply processMesh_cases.
    + intros Hhidden m' Hx' Hlt. cbn [removeMesh store] in Hlt.
      rewrite length_alter in Hlt.
      destruct (IH Hlt) as (x & Hin & Hshown & Hx).
      exists x. split; [done|]. split; [done|].
      rewrite removeMesh_forward_ne; [done|]. intros ->. congruence.
    + intros _ _. exact IH.
    + intros Hshown' Hx' Hlt. rewrite addNewMesh_length in Hlt.
      rewrite addNewMesh_forward.
      destruct (decide (threeMesh = length (store s))) as [->|Hne].
      * exists x'. by rewrite lookup_insert_eq.
      * destruct IH as (x & Hin & Hshown & Hx); [lia|].
        exists x. split; [done|]. split; [done|].
        rewrite lookup_insert_ne; [done|]. intros ->. congruence.
    + intros _ m' _. rewrite updateExistingMesh_length,
        updateExistingMesh_forward. exact IH.
Qed.

Lemma created_meshes_stay_mapped_witness :
  let env := envAt 2000 None [] in
  let frame := frameOf [7%N; 8%N] (fun _ => None) in
  let after := updateMeshes env (Some frame) afterFirstTick in
  length (store afterFirstTick) = 1 /\
  length (store after) = 2 /\
  exists xrMesh,
    xrMesh ∈ [7%N; 8%N] /\
    shown env frame 0%N xrMesh = true /\
    xrMeshToThreeMesh after !! xrMesh = Some 1 /\
    (exists mesh, store after !! 1 = Some mesh /\ disposed mesh = false) /\
    1 ∈ children after.
Proof.
  intros env frame after.
  assert (H1 : length (store afterFirstTick) = 1) by (vm_compute; reflexivity).
  assert (H2 : length (store after) = 2) by (vm_compute; reflexivity).
  split; [exact H1|]. split; [exact H2|].
  apply (created_meshes_stay_mapped env frame [7%N; 8%N] 0%N afterFirstTick 1).
  - apply reachable_updateMeshes, reachable_initial.
  - reflexivity.
  - vm_compute. reflexivity.
  - reflexivity.
  - fold after. rewrite H1, H2. lia.
Defined.

Lemma sub_zero_r x : (x - 0)%float = x.
Proof.
  apply Prim2SF_inj. rewrite sub_spec.
  change (Prim2SF 0) with (S754_zero false).
  by destruct (Prim2SF x) as [[]| | |].
Qed.

(** X20. Nothing is detected during the first second: as long as
    [lastMeshUpdateTime] still holds its initial 0, a call whose clock
    reads less than [MESH_UPDATE_INTERVAL_MS] returns the detector as it
    was, so a freshly constructed detector ignores every frame until
    [performance.now()] has reached 1000. *)
Theorem first_second_ignored env frame (this : MeshDetector) :
  lastMeshUpdateTime this = 0%float ->
  (performance_now env <? MESH_UPDATE_INTERVAL_MS)%float = true ->
  updateMeshes env frame this = this.
Proof.
  intros Hlast Hnow. unfold updateMeshes.
  destruct frame as [frame|]; [|done].
  destruct (detectedMeshes frame); [|done].
  by rewrite Hlast, sub_zero_r, Hnow.
Qed.

Lemma first_second_ignored_witness :
  let env := envAt 999.5 None [] in
  let frame := frameOf [7%N] (fun _ => None) in
  let this := initPhysics (mkPhysics 1 2) (init (mkOptions true) initial) in
  lastMeshUpdateTime this = 0%float /\
  updateMeshes env (Some frame) this = this.
Proof.
  intros env frame this.
  split; [reflexivity|].
  apply (first_second_ignored env (Some frame) this); [reflexivity|].
  vm_compute. reflexivity.
Defined.
